(** * BouncingBoxes: a shallow embedding of [BouncingBoxes.ino]

    The sketch animates five boxes on a TFT panel.  Each [Ball] keeps a
    floating-point position and speed, the integer cell it is drawn at and
    the cell it was drawn at one step earlier; [loop] moves every ball,
    erases what each one left behind and draws each one again.

    Target: an AVR board (Arduino UNO / Mega), as the Elegoo TFT shield is
    built for.  On that target [int] and [unsigned int] are 16 bits wide,
    [long] and [unsigned long] are 32 bits wide, and both [float] and
    [double] are IEEE-754 binary32. *)

From Stdlib Require Import ZArith List Bool Lia.
From Stdlib Require String.
Import ListNotations.
Open Scope Z_scope.

(** ** Machine integers *)

Module Int.

(** [unsigned int] and [uint16_t]: values modulo 2^16. *)
Definition to_uint (z : Z) : Z := z mod 65536.

(** [int] and [int16_t]: two's complement on 16 bits. *)
Definition to_int (z : Z) : Z := (z + 32768) mod 65536 - 32768.

(** [unsigned long]: values modulo 2^32. *)
Definition to_ulong (z : Z) : Z := z mod 4294967296.

(** The values of [int] and of [unsigned int]. *)
Definition is_int (z : Z) : Prop := -32768 <= z <= 32767.
Definition is_uint (z : Z) : Prop := 0 <= z <= 65535.

End Int.

(** ** binary32 arithmetic

    A finite binary32 number is an integer multiple of 2^-149 (the smallest
    subnormal).  A [float] below is that integer: the number of 2^-149 units.
    Every operation computes the exact result and rounds it to the nearest
    representable number, ties to even: at most 24 significant bits.
    Infinities and NaN are not represented; the sketch never divides by zero
    and its numbers stay far from the overflow threshold. *)

Module F32.

Definition float := Z.

(** One, in units of 2^-149. *)
Definition one : Z := 2 ^ 149.

(** Nearest integer to [a / b] for [0 <= a] and [0 < b], ties to even. *)
Definition rne (a b : Z) : Z :=
  let q := a / b in
  match 2 * (a mod b) ?= b with
  | Lt => q
  | Gt => q + 1
  | Eq => if Z.even q then q else q + 1
  end.

(** How many low bits a magnitude of [m] units loses: none below 2^24. *)
Definition shift (m : Z) : Z := Z.max 0 (Z.log2 m - 23).

(** The non-negative ratio [n / d] of units, rounded to 24 significant
    bits. *)
Definition round_pos (n d : Z) : Z :=
  let s := shift (n / d) in
  rne n (d * 2 ^ s) * 2 ^ s.

(** The ratio [n / d] ([0 < d]) rounded: sign and rounded magnitude. *)
Definition round_ratio (n d : Z) : float :=
  if n <? 0 then - round_pos (- n) d else round_pos n d.

(** A whole number of units, rounded. *)
Definition round (n : Z) : float := round_ratio n 1.

(** The magnitude of [round]. *)
Definition rpos (n : Z) : Z := round_pos n 1.

(** Conversion of an integer ([int], [unsigned], [long]) to [float]. *)
Definition of_int (z : Z) : float := round (z * one).

(** The nearest [float] to the decimal literal [n / d]. *)
Definition literal (n d : Z) : float := round_ratio (n * one) d.

Definition add (a b : float) : float := round (a + b).

Definition mul (a b : float) : float := round_ratio (a * b) one.

(** Division by a non-zero [b]. *)
Definition div (a b : float) : float :=
  if b <? 0 then round_ratio (- (a * one)) (- b)
  else round_ratio (a * one) b.

(** Conversion to an integer type drops the fraction (towards zero). *)
Definition trunc (a : float) : Z := Z.quot a one.

Definition leb (a b : float) : bool := a <=? b.
Definition geb (a b : float) : bool := a >=? b.
Definition gtb (a b : float) : bool := a >? b.

End F32.

(** ** The Arduino core and the display driver

    Neither is part of the sketch; both are modelled by their contract. *)

(** Modelled from the spec: the random source ("a single uniform integer in
    range operation").  [Rng] is the sequence of values the generator's
    [random()] will return, each a non-negative [long]; [random lo hi]
    follows the Arduino core: [lo] when the range is empty, otherwise [lo]
    plus the next raw value modulo [hi - lo], so [lo <= result < hi]. *)
Definition Rng := nat -> N.

(** Computations that draw random numbers. *)
Definition Rand (A : Type) : Type := Rng -> A * Rng.

Definition ret {A} (a : A) : Rand A := fun g => (a, g).

Definition bind {A B} (c : Rand A) (k : A -> Rand B) : Rand B :=
  fun g => let (a, g') := c g in k a g'.

Notation "x <- c ;; k" := (bind c (fun x => k))
  (at level 61, c at next level, right associativity).

(** Modelled from the spec: the generator's next raw value, [random()]. *)
Definition next_raw : Rand Z :=
  fun g => (Z.of_N (g 0%nat), fun n => g (S n)).

(** Modelled from the spec: [random(howsmall, howbig)], a uniform integer
    in [[howsmall, howbig)]. *)
Definition random (howsmall howbig : Z) : Rand Z :=
  if howsmall >=? howbig then ret howsmall
  else r <- next_raw ;; ret (r mod (howbig - howsmall) + howsmall).

(** Modelled from the spec: the drawing surface.  [width()] and [height()]
    are fixed [unsigned] dimensions. *)
Record Display := mkDisplay { width : Z; height : Z }.

(** Modelled from the spec: one call
    [fillRect(x: int, y: int, w: unsigned, h: unsigned, color)]. *)
Record FillRect := mkFill { fx : Z; fy : Z; fw : Z; fh : Z; fcolor : Z }.

Definition BLACK : Z := 0.
Definition WHITE : Z := 65535.
Definition BACKGROUND : Z := BLACK.

(** The arguments of a [fillRect] call after conversion to the parameter
    types. *)
Definition fillRect (x y w h c : Z) : FillRect :=
  mkFill (Int.to_int x) (Int.to_int y) (Int.to_uint w) (Int.to_uint h)
         (Int.to_uint c).

(** The pixels a call fills, before the driver clips them to the panel. *)
Definition covers (c : FillRect) (px py : Z) : Prop :=
  fx c <= px < fx c + fw c /\ fy c <= py < fy c + fh c.

(** ** class Ball *)

Module Ball.

Record t := mk {
  x : F32.float; y : F32.float;      (* position *)
  dx : F32.float; dy : F32.float;    (* speed *)
  ix : Z; iy : Z;                    (* new integer position *)
  ox : Z; oy : Z;                    (* old integer position *)
  radius : Z;                        (* unsigned int *)
  color : Z                          (* unsigned int *)
}.

(** [k / 10.0] for a [long] k. *)
Definition tenths (k : Z) : F32.float :=
  F32.div (F32.of_int k) (F32.literal 10 1).

(** The literal [0.05] added to [dy] on every step in the air. *)
Definition gravity : F32.float := F32.literal 5 100.

(** [new Ball()].  [mem] is what the allocated storage holds before the
    constructor runs; the constructor assigns [radius], [color], [x], [y],
    [dx] and [dy] and nothing else. *)
Definition Ball (tft : Display) (mem : t) : Rand t :=
  r <- random 6 12 ;;
  let radius' := Int.to_uint r in
  c <- random BLACK WHITE ;;
  let color' := Int.to_uint c in
  px <- random radius' (Int.to_uint (width tft - radius')) ;;
  py <- random radius' (Int.to_uint (height tft - radius')) ;;
  kx <- random 20 45 ;;
  ky <- random 20 45 ;;
  ret {| x := F32.of_int px; y := F32.of_int py;
         dx := tenths kx; dy := tenths ky;
         ix := ix mem; iy := iy mem; ox := ox mem; oy := oy mem;
         radius := radius'; color := color' |}.

(** The tests of [move]: [x+dx <= radius], [x+dx >= tft.width() - radius]
    and [y+dy >= tft.height() - radius]. *)
Definition reaches_left (b : t) : bool :=
  F32.leb (F32.add (x b) (dx b)) (F32.of_int (radius b)).

Definition reaches_right (tft : Display) (b : t) : bool :=
  F32.geb (F32.add (x b) (dx b))
          (F32.of_int (Int.to_uint (width tft - radius b))).

Definition hits_wall (tft : Display) (b : t) : bool :=
  reaches_left b || reaches_right tft b.

Definition hits_ground (tft : Display) (b : t) : bool :=
  F32.geb (F32.add (y b) (dy b))
          (F32.of_int (Int.to_uint (height tft - radius b))).

(** [move()]: remember the old cell, bounce, add gravity, move. *)
Definition move (tft : Display) (b : t) : Rand t :=
  let ox' := ix b in
  let oy' := iy b in
  dx' <- (if hits_wall tft b
          then k <- random 20 45 ;;
               ret (F32.mul (tenths k)
                            (F32.of_int (if F32.gtb (dx b) 0 then -1 else 1)))
          else ret (dx b)) ;;
  dy' <- (if hits_ground tft b
          then k <- random (-45) (-20) ;;
               ret (tenths k)
          else ret (F32.add (dy b) gravity)) ;;
  let x' := F32.add (x b) dx' in
  let y' := F32.add (y b) dy' in
  ret {| x := x'; y := y'; dx := dx'; dy := dy';
         ix := Int.to_int (F32.trunc x'); iy := Int.to_int (F32.trunc y');
         ox := ox'; oy := oy';
         radius := radius b; color := color b |}.

(** The speeds [move] stores, and the generator between its two draws. *)
Definition new_dx (tft : Display) (b : t) (g : Rng) : F32.float :=
  if hits_wall tft b
  then F32.mul (tenths (fst (random 20 45 g)))
               (F32.of_int (if F32.gtb (dx b) 0 then -1 else 1))
  else dx b.

Definition rng_after_wall (tft : Display) (b : t) (g : Rng) : Rng :=
  if hits_wall tft b then snd (random 20 45 g) else g.

Definition new_dy (tft : Display) (b : t) (g : Rng) : F32.float :=
  if hits_ground tft b
  then tenths (fst (random (-45) (-20) (rng_after_wall tft b g)))
  else F32.add (dy b) gravity.

(** What is checked, by evaluation, of each [k / 10.0] the sketch can
    form: it lies between 2 and 5, and multiplying by [1] or [-1] and
    negating [k] are exact. *)
Definition speed_checks (k : Z) : bool :=
  (2 * F32.one <=? tenths k) && (tenths k <=? 5 * F32.one)
  && (F32.mul (tenths k) (F32.of_int (-1)) =? - tenths k)
  && (F32.mul (tenths k) (F32.of_int 1) =? tenths k)
  && (tenths (- k) =? - tenths k).

(** Movement distances old -> new position: [int mx = ix - ox] and
    [int my = iy - oy]. *)
Definition mx (b : t) : Z := Int.to_int (ix b - ox b).
Definition my (b : t) : Z := Int.to_int (iy b - oy b).

(** [erase()], first half: erase horizontal gap. *)
Definition erase_horizontal (b : t) : list FillRect :=
  if mx b >? 0 then
    [fillRect (Int.to_uint (ox b - radius b)) (Int.to_uint (oy b - radius b))
              (mx b) (Int.to_uint (radius b * 2)) BACKGROUND]
  else if mx b <? 0 then
    [fillRect (Int.to_uint (Int.to_uint (ox b + radius b) + mx b))
              (Int.to_uint (oy b - radius b))
              (Int.to_int (- mx b)) (Int.to_uint (radius b * 2)) BACKGROUND]
  else [].

(** [erase()], second half: erase vertical gap. *)
Definition erase_vertical (b : t) : list FillRect :=
  if my b >? 0 then
    [fillRect (Int.to_uint (ox b - radius b)) (Int.to_uint (oy b - radius b))
              (Int.to_uint (radius b * 2)) (my b) BACKGROUND]
  else if my b <? 0 then
    [fillRect (Int.to_uint (ox b - radius b))
              (Int.to_uint (Int.to_uint (oy b + radius b) + my b))
              (Int.to_uint (radius b * 2)) (Int.to_int (- my b)) BACKGROUND]
  else [].

(** [erase()]: the [fillRect] calls it issues, in order. *)
Definition erase (b : t) : list FillRect :=
  erase_horizontal b ++ erase_vertical b.

(** [draw()]. *)
Definition draw (b : t) : list FillRect :=
  [fillRect (Int.to_uint (ix b - radius b)) (Int.to_uint (iy b - radius b))
            (Int.to_uint (radius b * 2)) (Int.to_uint (radius b * 2))
            (color b)].

(** The box of side [2 * radius] around a cell. *)
Definition box (cx cy r px py : Z) : Prop :=
  cx - r <= px < cx + r /\ cy - r <= py < cy + r.

Definition old_box (b : t) : Z -> Z -> Prop := box (ox b) (oy b) (radius b).
Definition new_box (b : t) : Z -> Z -> Prop := box (ix b) (iy b) (radius b).

(** [n] successive calls of [move()] on one ball. *)
Fixpoint moves (n : nat) (tft : Display) (b : t) : Rand t :=
  match n with
  | O => ret b
  | S n' => b' <- move tft b ;; moves n' tft b'
  end.

(** *** Conditions on a ball *)

(** The four cells hold [int] values. *)
Definition typed (b : t) : Prop :=
  Int.is_int (ix b) /\ Int.is_int (iy b) /\
  Int.is_int (ox b) /\ Int.is_int (oy b).

(** The radius the constructor draws: [random(6, 12)]. *)
Definition sized (b : t) : Prop := 6 <= radius b < 12.

(** None of the [int] expressions of [erase] and [draw] leaves the range
    of [int]: the movement, the edges of both boxes and the negated
    movement. *)
Definition no_overflow (b : t) : Prop :=
  Int.is_int (ix b - ox b) /\ Int.is_int (iy b - oy b) /\
  Int.is_int (ox b - radius b) /\ Int.is_int (ox b + radius b) /\
  Int.is_int (oy b - radius b) /\ Int.is_int (oy b + radius b) /\
  Int.is_int (ix b - radius b) /\ Int.is_int (ix b + radius b) /\
  Int.is_int (iy b - radius b) /\ Int.is_int (iy b + radius b) /\
  Int.is_int (ox b - ix b) /\ Int.is_int (oy b - iy b).

(** What the constructor and a wall bounce can store in [dx]:
    [random(20, 45) / 10.0], with either sign. *)
Definition bounce_speed (v : F32.float) : Prop :=
  exists k, 20 <= k < 45 /\ (v = tenths k \/ v = - tenths k).

(** [radius <= x <= tft.width() - radius]. *)
Definition within_walls (tft : Display) (b : t) : Prop :=
  F32.of_int (radius b) <= x b <= F32.of_int (width tft - radius b).

(** [y <= tft.height() - radius]. *)
Definition above_ground (tft : Display) (b : t) : Prop :=
  y b <= F32.of_int (height tft - radius b).

(** A vertical speed of at most 2^20 pixels per step, either way. *)
Definition bounded_fall (b : t) : Prop :=
  Z.abs (dy b) <= F32.of_int 1048576.

(** Moving right and reaching the right bound, or moving left and
    reaching the left bound. *)
Definition crossing (tft : Display) (b : t) : Prop :=
  (0 < dx b /\ reaches_right tft b = true) \/
  (dx b < 0 /\ reaches_left b = true).

(** [b'] is [b] after one [move()]. *)
Definition moved (tft : Display) (b b' : t) : Prop :=
  exists g, b' = fst (move tft b g).

End Ball.

(** ** The sketch: globals, [setup] and [loop] *)

Definition BALLCOUNT : nat := 5.

Inductive Method := Move | Erase | Draw.

(** What one run of [loop] does that can be observed from outside: the
    method calls on [balls[i]] and the [fillRect] calls that reach the
    display, in program order. *)
Inductive Event :=
| Call (m : Method) (i : nat)
| Fill (c : FillRect).

Record World := mkWorld {
  tft : Display;
  lastms : Z;                 (* unsigned long *)
  balls : list Ball.t;        (* Ball *balls[BALLCOUNT], each its own object *)
  rng : Rng;
  trace : list Event          (* oldest first *)
}.

(** The ball-creating loop of [setup] over the storage the allocator hands
    out. *)
Fixpoint create_balls (tft : Display) (mems : list Ball.t) : Rand (list Ball.t) :=
  match mems with
  | [] => ret []
  | mem :: rest =>
      b <- Ball.Ball tft mem ;;
      bs <- create_balls tft rest ;;
      ret (b :: bs)
  end.

(** [setup()] from "create balls" on: the balls, then [lastms = millis()].
    Seeding the generator and bringing up the display come before and leave
    no trace here: [g] is the seeded generator, [tft] the rotated panel,
    [mem i] the storage the allocator returns for [balls[i]], [ms] the
    value [millis()] returns. *)
Definition setup (tft : Display) (mem : nat -> Ball.t) (ms : Z) (g : Rng) : World :=
  let (bs, g') := create_balls tft (map mem (seq 0 BALLCOUNT)) g in
  mkWorld tft ms bs g' [].

(** [for (Ball *b : balls) b->move();] from index [i] on. *)
Fixpoint move_all (tft : Display) (i : nat) (bs : list Ball.t)
  : Rand (list Ball.t * list Event) :=
  match bs with
  | [] => ret ([], [])
  | b :: rest =>
      b' <- Ball.move tft b ;;
      r <- move_all tft (S i) rest ;;
      ret (b' :: fst r, Call Move i :: snd r)
  end.

(** [for (Ball *b : balls) b->erase();] from index [i] on. *)
Fixpoint erase_all (i : nat) (bs : list Ball.t) : list Event :=
  match bs with
  | [] => []
  | b :: rest => Call Erase i :: map Fill (Ball.erase b) ++ erase_all (S i) rest
  end.

(** [for (Ball *b : balls) b->draw();] from index [i] on. *)
Fixpoint draw_all (i : nat) (bs : list Ball.t) : list Event :=
  match bs with
  | [] => []
  | b :: rest => Call Draw i :: map Fill (Ball.draw b) ++ draw_all (S i) rest
  end.

(** [loop()], with [ms] the value [millis()] returns. *)
Definition loop (ms : Z) (w : World) : World :=
  if Int.to_ulong (ms - lastms w) <=? 5 then w
  else
    let '(bs, ev, g) := move_all (tft w) 0 (balls w) (rng w) in
    mkWorld (tft w) ms bs g
            (trace w ++ ev ++ erase_all 0 bs ++ draw_all 0 bs).

(** The method calls in a trace, and the [fillRect] calls in a trace. *)
Fixpoint calls (tr : list Event) : list (Method * nat) :=
  match tr with
  | [] => []
  | Call m i :: tr' => (m, i) :: calls tr'
  | Fill _ :: tr' => calls tr'
  end.

Fixpoint fills (tr : list Event) : list FillRect :=
  match tr with
  | [] => []
  | Call _ _ :: tr' => fills tr'
  | Fill c :: tr' => c :: fills tr'
  end.

(** ** Rectangles on the panel *)

(** Two calls that fill no pixel in common. *)
Definition disjoint (c d : FillRect) : Prop :=
  forall px py, ~ (covers c px py /\ covers d px py).

(** [c] ends where [d] begins, or begins where [d] ends, along x. *)
Definition abuts_x (c d : FillRect) : Prop :=
  fx c + fw c = fx d \/ fx d + fw d = fx c.

(** The same along y. *)
Definition abuts_y (c d : FillRect) : Prop :=
  fy c + fh c = fy d \/ fy d + fh d = fy c.



(** ** Worked inputs *)

(** A generator that returns the listed values and zero from then on. *)
Definition draws_of (l : list N) : Rng := fun n => nth n l 0%N.

(** The panel after [setRotation(3)], and the upright panel. *)
Definition landscape : Display := mkDisplay 320 240.
Definition upright : Display := mkDisplay 240 320.

(** The end-to-end scenario: radius 10 at (50, 50), moving by (3, 3), drawn
    at cell (50, 50). *)
Definition scenario_start : Ball.t :=
  {| Ball.x := F32.of_int 50; Ball.y := F32.of_int 50;
     Ball.dx := F32.of_int 3; Ball.dy := F32.of_int 3;
     Ball.ix := 50; Ball.iy := 50; Ball.ox := 50; Ball.oy := 50;
     Ball.radius := 10; Ball.color := 2016 |}.

Definition scenario_moved (g : Rng) : Ball.t :=
  fst (Ball.move upright scenario_start g).

(** The scenario as worded: the horizontal strip at x in [60, 63). *)
Definition scenario_leading_strip (b : Ball.t) : Prop :=
  (Ball.ix b, Ball.iy b) = (53, 53) /\ (Ball.ox b, Ball.oy b) = (50, 50) /\
  (exists h, In h (Ball.erase b) /\ (fx h, fw h, fh h) = (60, 3, 20)) /\
  (exists v, In v (Ball.erase b) /\ (fw v, fh v) = (20, 3)) /\
  (exists d, Ball.draw b = [d] /\ (fx d, fy d, fw d, fh d) = (43, 43, 20, 20)).

(** A ball that moved by 13 columns with a box 12 wide. *)
Definition long_jump : Ball.t :=
  {| Ball.x := F32.of_int 63; Ball.y := F32.of_int 53;
     Ball.dx := F32.of_int 13; Ball.dy := F32.of_int 3;
     Ball.ix := 63; Ball.iy := 53; Ball.ox := 50; Ball.oy := 50;
     Ball.radius := 6; Ball.color := 2016 |}.

(** Storage whose words for the old and the new cell differ. *)
Definition stale : Ball.t :=
  {| Ball.x := 0; Ball.y := 0; Ball.dx := 0; Ball.dy := 0;
     Ball.ix := 0; Ball.iy := 0; Ball.ox := 1; Ball.oy := 0;
     Ball.radius := 0; Ball.color := 0 |}.

(** Draws that make the constructor choose radius 6, x = 106, y = 162 and
    the speeds 2.0 and 4.4. *)
Definition falling_draws : Rng := draws_of [0; 0; 100; 156; 0; 24]%N.

Definition falling_ball : Ball.t := fst (Ball.Ball landscape stale falling_draws).

(** The same ball after 14 steps and after 15. *)
Definition falling_14 : Ball.t * Rng :=
  Ball.moves 14 landscape falling_ball (snd (Ball.Ball landscape stale falling_draws)).

Definition falling_15 : Ball.t :=
  fst (Ball.move landscape (fst falling_14) (snd falling_14)).

(** A ball about to reach the right wall of the upright panel. *)
Definition at_right_wall : Ball.t :=
  {| Ball.x := F32.of_int 228; Ball.y := F32.of_int 50;
     Ball.dx := Ball.tenths 30; Ball.dy := F32.of_int 3;
     Ball.ix := 228; Ball.iy := 50; Ball.ox := 225; Ball.oy := 47;
     Ball.radius := 10; Ball.color := 2016 |}.

(** The sketch after [setup] at time 0 on blocks of stale storage. *)
Definition started : World :=
  setup landscape (fun _ => stale) 0 falling_draws.

(** ** The display bring-up of [setup] *)

Module Bringup.
Import String.

(** What [setup] does to the display and the serial line before it creates
    the balls, in program order. *)
Inductive Boot :=
| Reset
| ReadID
| Println (s : string)
| Print (s : string)
| PrintlnHex (z : Z)
| Begin (identifier : Z)
| FillScreen (c : Z)
| SetRotation (r : Z).

(** The driver chips the [if] chain names. *)
Definition known_drivers : list Z :=
  [0x9325; 0x9328; 0x4535; 0x7575; 0x9341; 0x8357].

(** The [if] chain on the [uint16_t identifier]: what it prints and the
    identifier it leaves. *)
Definition identify (identifier : Z) : list Boot * Z :=
  if identifier =? 0x9325 then
    ([Println "Found ILI9325 LCD driver"], identifier)
  else if identifier =? 0x9328 then
    ([Println "Found ILI9328 LCD driver"], identifier)
  else if identifier =? 0x4535 then
    ([Println "Found LGDP4535 LCD driver"], identifier)
  else if identifier =? 0x7575 then
    ([Println "Found HX8347G LCD driver"], identifier)
  else if identifier =? 0x9341 then
    ([Println "Found ILI9341 LCD driver"], identifier)
  else if identifier =? 0x8357 then
    ([Println "Found HX8357D LCD driver"], identifier)
  else if identifier =? 0x0101 then
    ([Println "Found 0x9341 LCD driver"], 0x9341)
  else
    ([Print "Unknown LCD driver chip: "; PrintlnHex identifier], 0x9341).

(** [setup] from [tft.reset()] to [tft.setRotation(3)], with [id] the value
    [tft.readID()] returns. *)
Definition bring_up (id : Z) : list Boot :=
  let (said, identifier) := identify (Int.to_uint id) in
  ([Reset; ReadID] ++ said
   ++ [Begin identifier; FillScreen BACKGROUND; SetRotation 3])%list.

End Bringup.

(** ** The screen *)

(** Modelled from the spec: what [fillRect] does to the pixels, "fills the
    given rectangle", clipped to the panel.  A screen gives the colour of
    every pixel; pixels off the panel never change. *)
Definition Screen := Z -> Z -> Z.

Definition coversb (c : FillRect) (px py : Z) : bool :=
  (fx c <=? px) && (px <? fx c + fw c) && (fy c <=? py) && (py <? fy c + fh c).

Definition on_panel (tft : Display) (px py : Z) : bool :=
  (0 <=? px) && (px <? width tft) && (0 <=? py) && (py <? height tft).

Definition fill (tft : Display) (s : Screen) (c : FillRect) : Screen :=
  fun px py =>
    if on_panel tft px py && coversb c px py then fcolor c else s px py.

(** The screen after a sequence of calls. *)
Definition render (tft : Display) (s : Screen) (cs : list FillRect) : Screen :=
  fold_left (fill tft) cs s.

(** The screen after [tft.fillScreen(BACKGROUND)]. *)
Definition blank : Screen := fun _ _ => BACKGROUND.

(** The screen after [setup] and the calls of a trace. *)
Definition screen_after (tft : Display) (tr : list Event) : Screen :=
  render tft blank (fills tr).

(** The screen a full redraw would give: every ball drawn, in array order,
    on a blank screen. *)
Definition full_redraw (tft : Display) (bs : list Ball.t) : Screen :=
  render tft blank (flat_map Ball.draw bs).

(** Some call of the list fills the pixel. *)
Definition painted (cs : list FillRect) (px py : Z) : Prop :=
  exists c, In c cs /\ covers c px py.

(** ** Runs *)

(** The host calls [loop] again and again; [times] are the values
    [millis()] returns, one per call. *)
Definition run (times : list Z) (w : World) : World :=
  fold_left (fun w ms => loop ms w) times w.

(** The generator after [n] draws. *)
Definition skip (n : nat) (g : Rng) : Rng := fun i => g (n + i)%nat.

Definition b2n (p : bool) : nat := if p then 1%nat else 0%nat.

(** How many random numbers a tick draws for these balls: one for each
    ball that reaches a wall and one for each that reaches the ground. *)
Fixpoint bounces (tft : Display) (bs : list Ball.t) : nat :=
  match bs with
  | [] => 0%nat
  | b :: rest =>
      (b2n (Ball.hits_wall tft b) + b2n (Ball.hits_ground tft b)
       + bounces tft rest)%nat
  end.

(** ** Conditions that hold throughout a run *)

(** A panel between 33 and 480 pixels each way; the 240 x 320 panel is, in
    either orientation. *)
Definition panel_ok (tft : Display) : Prop :=
  33 <= width tft <= 480 /\ 33 <= height tft <= 480.

(** Twice the gravity increment times the height a ball can still fall,
    plus the square of its speed, with y measured from the top: what a
    step in the air cannot increase. *)
Definition energy (b : Ball.t) : Z :=
  Ball.dy b * Ball.dy b - 2 * Ball.gravity * Ball.y b.

(** Less than a pixel past the ground bound, with no more energy than a
    ball leaving the ground at 5 pixels per step. *)
Definition in_flight (tft : Display) (b : Ball.t) : Prop :=
  Ball.y b < F32.of_int (height tft - Ball.radius b + 1) /\
  energy b <= 25 * F32.one * F32.one.

Definition in_play (tft : Display) (b : Ball.t) : Prop :=
  Ball.sized b /\ Ball.bounce_speed (Ball.dx b) /\
  Ball.within_walls tft b /\ in_flight tft b.

(** The cell is the truncated position. *)
Definition placed (b : Ball.t) : Prop :=
  Ball.ix b = F32.trunc (Ball.x b) /\ Ball.iy b = F32.trunc (Ball.y b).

Definition steady (tft : Display) (b : Ball.t) : Prop :=
  in_play tft b /\ placed b.

(** Nothing was painted yet, or the screen is the full redraw of the balls
    and every cell is the truncated position. *)
Definition showing (w : World) : Prop :=
  fills (trace w) = [] \/
  (Forall placed (balls w) /\
   forall px py, screen_after (tft w) (trace w) px py
                 = full_redraw (tft w) (balls w) px py).

Definition sound (d : Display) (w : World) : Prop :=
  tft w = d /\ Forall (in_play d) (balls w) /\ showing w.

(** What is checked, by evaluation, of each [k / 10.0] a ground bounce can
    store: it lies between -4.5 and -2. *)
Definition ground_speed_checks (k : Z) : bool :=
  (- 9 * 2 ^ 148 <=? Ball.tenths k) && (Ball.tenths k <=? - 2 * F32.one).

(** ** Further worked inputs *)

(** A ball that moved two columns to the left and no row. *)
Definition sideways : Ball.t :=
  {| Ball.x := F32.of_int 98; Ball.y := F32.of_int 50;
     Ball.dx := - Ball.tenths 20; Ball.dy := F32.of_int 0;
     Ball.ix := 98; Ball.iy := 50; Ball.ox := 100; Ball.oy := 50;
     Ball.radius := 8; Ball.color := 31 |}.

(** A world whose last tick was 6 ms before [millis()] wraps. *)
Definition near_wrap : World :=
  mkWorld landscape 4294967290 [scenario_start] falling_draws [].

(** A ball one step from the ground of the 320 x 240 panel. *)
Definition at_ground : Ball.t :=
  {| Ball.x := F32.of_int 100; Ball.y := F32.of_int 228;
     Ball.dx := Ball.tenths 20; Ball.dy := F32.of_int 3;
     Ball.ix := 100; Ball.iy := 228; Ball.ox := 98; Ball.oy := 225;
     Ball.radius := 10; Ball.color := 31 |}.

(** The ball [b] has the cells of the storage [m]. *)
Definition same_cells (m b : Ball.t) : Prop :=
  Ball.ix b = Ball.ix m /\ Ball.iy b = Ball.iy m /\
  Ball.ox b = Ball.ox m /\ Ball.oy b = Ball.oy m.

(** * Facts *)

(** ** Machine integers *)

Ltac unwrap :=
  unfold Int.to_int, Int.to_uint, Int.is_int, Int.is_uint in *;
  Z.div_mod_to_equations.

(** Closed comparisons between numbers, by evaluation. *)
Ltac by_evaluation :=
  repeat split;
  match goal with
  | |- _ <= _ => apply Z.leb_le; vm_compute; reflexivity
  | |- _ < _ => apply Z.ltb_lt; vm_compute; reflexivity
  | |- _ = _ => vm_compute; reflexivity
  end.

Lemma to_int_range z : Int.is_int (Int.to_int z).
Proof. unwrap. lia. Qed.

Lemma to_int_id z : Int.is_int z -> Int.to_int z = z.
Proof. intros H. unwrap. lia. Qed.

Lemma to_uint_id z : Int.is_uint z -> Int.to_uint z = z.
Proof. intros H. unwrap. lia. Qed.

(** Passing an [unsigned] value for an [int] parameter keeps the low 16
    bits. *)
Lemma to_int_uint z : Int.to_int (Int.to_uint z) = Int.to_int z.
Proof. unwrap. lia. Qed.

(** ** Rounding *)

Module F32Facts.
Import F32.

Lemma one_pos : 0 < one.
Proof. reflexivity. Qed.

Lemma one_eq : one = 2 ^ 149.
Proof. reflexivity. Qed.

Lemma rne_bounds a b : 0 < b -> a / b <= rne a b <= a / b + 1.
Proof.
  intros Hb. unfold rne.
  destruct (2 * (a mod b) ?= b); try destruct (Z.even (a / b)); lia.
Qed.

Lemma rne_mono a1 a2 b : 0 < b -> a1 <= a2 -> rne a1 b <= rne a2 b.
Proof.
  intros Hb Hle.
  assert (Hq : a1 / b <= a2 / b) by (apply Z.div_le_mono; lia).
  destruct (Z.eq_dec (a1 / b) (a2 / b)) as [E|NE].
  - assert (Hr : a1 mod b <= a2 mod b).
    { rewrite !Z.mod_eq by lia. rewrite E. lia. }
    unfold rne. rewrite E.
    destruct (Z.compare_spec (2 * (a1 mod b)) b);
      destruct (Z.compare_spec (2 * (a2 mod b)) b);
      destruct (Z.even (a2 / b)); lia.
  - pose proof (rne_bounds a1 b Hb). pose proof (rne_bounds a2 b Hb). lia.
Qed.

Lemma rne_exact m b : 0 < b -> rne (m * b) b = m.
Proof.
  intros Hb. unfold rne.
  rewrite Z.div_mul, Z.mod_mul by lia.
  destruct (Z.compare_spec (2 * 0) b); lia.
Qed.

Lemma shift_nonneg m : 0 <= shift m.
Proof. unfold shift. lia. Qed.

Lemma shift_mono m1 m2 : m1 <= m2 -> shift m1 <= shift m2.
Proof.
  intros H. unfold shift. pose proof (Z.log2_le_mono m1 m2 H). lia.
Qed.

(** A magnitude is below the top of its binade. *)
Lemma shift_upper m : m < 2 ^ (shift m + 24).
Proof.
  destruct (Z_lt_le_dec 0 m) as [Hm|Hm].
  - pose proof (Z.log2_spec m Hm) as [_ Hu].
    eapply Z.lt_le_trans; [exact Hu|].
    apply Z.pow_le_mono_r; unfold shift; lia.
  - pose proof (shift_nonneg m).
    assert (0 < 2 ^ (shift m + 24)) by (apply Z.pow_pos_nonneg; lia). lia.
Qed.

(** When bits are dropped, the magnitude is at or above the bottom of its
    binade. *)
Lemma shift_lower m : 0 < shift m -> 2 ^ (shift m + 23) <= m.
Proof.
  unfold shift. intros Hs.
  assert (Hm : 0 < m).
  { destruct (Z_lt_le_dec 0 m); [assumption|].
    rewrite Z.log2_nonpos in Hs by assumption. lia. }
  pose proof (Z.log2_spec m Hm) as [Hl _].
  replace (Z.max 0 (Z.log2 m - 23) + 23) with (Z.log2 m) by lia. exact Hl.
Qed.

Lemma rpos_eq n : rpos n = rne n (2 ^ shift n) * 2 ^ shift n.
Proof.
  unfold rpos, round_pos. rewrite Z.div_1_r, Z.mul_1_l. reflexivity.
Qed.

Lemma rpos_nonneg n : 0 <= n -> 0 <= rpos n.
Proof.
  intros Hn. rewrite rpos_eq.
  assert (Hp : 0 < 2 ^ shift n)
    by (apply Z.pow_pos_nonneg; [lia|apply shift_nonneg]).
  pose proof (rne_bounds n _ Hp).
  pose proof (Z.div_pos n _ Hn Hp). nia.
Qed.

Lemma rpos_mono n1 n2 : 0 <= n1 -> n1 <= n2 -> rpos n1 <= rpos n2.
Proof.
  intros H0 Hle. rewrite !rpos_eq.
  pose proof (shift_mono _ _ Hle) as Hs.
  pose proof (shift_nonneg n1) as Hs1.
  assert (Hp1 : 0 < 2 ^ shift n1) by (apply Z.pow_pos_nonneg; lia).
  assert (Hp2 : 0 < 2 ^ shift n2) by (apply Z.pow_pos_nonneg; lia).
  destruct (Z.eq_dec (shift n1) (shift n2)) as [E|NE].
  - rewrite E. apply Z.mul_le_mono_nonneg_r; [lia|].
    apply rne_mono; lia.
  - (* the two lie in different binades: a power of two separates them *)
    assert (Hlt : shift n1 < shift n2) by lia.
    apply Z.le_trans with (2 ^ (shift n2 + 23)).
    + pose proof (shift_upper n1) as Hu.
      assert (rne n1 (2 ^ shift n1) <= 2 ^ 24).
      { rewrite <- (rne_exact (2 ^ 24) (2 ^ shift n1)) by lia.
        apply rne_mono; [lia|].
        rewrite <- Z.pow_add_r by lia. rewrite Z.add_comm. lia. }
      apply Z.le_trans with (2 ^ 24 * 2 ^ shift n1).
      * apply Z.mul_le_mono_nonneg_r; lia.
      * rewrite <- Z.pow_add_r by lia. apply Z.pow_le_mono_r; lia.
    + assert (Hl : 2 ^ (shift n2 + 23) <= n2) by (apply shift_lower; lia).
      assert (2 ^ 23 <= rne n2 (2 ^ shift n2)).
      { rewrite <- (rne_exact (2 ^ 23) (2 ^ shift n2)) by lia.
        apply rne_mono; [lia|].
        rewrite <- Z.pow_add_r by lia. rewrite Z.add_comm. lia. }
      rewrite Z.pow_add_r by lia. rewrite Z.mul_comm.
      apply Z.mul_le_mono_nonneg_r; lia.
Qed.

Lemma round_eq n : round n = if n <? 0 then - rpos (- n) else rpos n.
Proof. reflexivity. Qed.

(** Rounding never reorders two numbers. *)
Lemma round_mono n1 n2 : n1 <= n2 -> round n1 <= round n2.
Proof.
  intros Hle. rewrite !round_eq.
  destruct (Z.ltb_spec n1 0); destruct (Z.ltb_spec n2 0).
  - pose proof (rpos_mono (- n2) (- n1)). lia.
  - pose proof (rpos_nonneg (- n1)). pose proof (rpos_nonneg n2). lia.
  - lia.
  - apply rpos_mono; lia.
Qed.

(** A number of fewer than 24 significant bits is kept as it is. *)
Lemma rpos_exact m k :
  0 <= m < 2 ^ 24 -> 0 <= k -> rpos (m * 2 ^ k) = m * 2 ^ k.
Proof.
  intros Hm Hk. rewrite rpos_eq.
  set (n := m * 2 ^ k). set (s := shift n).
  assert (Hs0 : 0 <= s) by apply shift_nonneg.
  assert (Hpk : 0 < 2 ^ k) by (apply Z.pow_pos_nonneg; lia).
  assert (Hsk : s <= k).
  { destruct (Z_lt_le_dec k s) as [Hlt|]; [|assumption]. exfalso.
    assert (Hpos : 0 < s) by lia.
    pose proof (shift_lower n Hpos) as Hl. fold s in Hl.
    assert (2 ^ (24 + k) <= 2 ^ (s + 23)) by (apply Z.pow_le_mono_r; lia).
    assert (n < 2 ^ 24 * 2 ^ k)
      by (unfold n; apply Z.mul_lt_mono_pos_r; lia).
    rewrite <- Z.pow_add_r in * by lia. lia. }
  assert (E : n = (m * 2 ^ (k - s)) * 2 ^ s).
  { unfold n. rewrite <- Z.mul_assoc, <- Z.pow_add_r by lia.
    f_equal. f_equal. lia. }
  rewrite E at 1. rewrite rne_exact by (apply Z.pow_pos_nonneg; lia).
  symmetry. exact E.
Qed.

Lemma round_exact m k :
  Z.abs m < 2 ^ 24 -> 0 <= k -> round (m * 2 ^ k) = m * 2 ^ k.
Proof.
  intros Hm Hk. rewrite round_eq.
  assert (Hp : 0 < 2 ^ k) by (apply Z.pow_pos_nonneg; lia).
  destruct (Z.ltb_spec (m * 2 ^ k) 0).
  - replace (- (m * 2 ^ k)) with ((- m) * 2 ^ k) by ring.
    assert (0 <= - m < 2 ^ 24) by nia.
    rewrite rpos_exact by assumption. lia.
  - apply rpos_exact; [nia|assumption].
Qed.

(** Integers below 2^24 in magnitude convert without rounding. *)
Lemma of_int_exact z : Z.abs z < 2 ^ 24 -> of_int z = z * one.
Proof. intros H. unfold of_int, one. apply round_exact; lia. Qed.

Lemma of_int_mono z1 z2 : z1 <= z2 -> of_int z1 <= of_int z2.
Proof.
  intros H. unfold of_int. apply round_mono.
  apply Z.mul_le_mono_nonneg_r; [pose proof one_pos|]; lia.
Qed.

Lemma of_int_small z : 0 <= z <= 1048576 -> of_int z = z * one.
Proof.
  intros H. apply of_int_exact. change (2 ^ 24) with 16777216. lia.
Qed.

(** Whole numbers of pixels up to 2^20 are representable. *)
Lemma round_small z : 0 <= z <= 1048576 -> round (z * one) = z * one.
Proof. exact (of_int_small z). Qed.

(** Dropping the fraction of a number below [n + 1] leaves at most [n]. *)
Lemma trunc_below a n : 0 <= n -> a < (n + 1) * one -> trunc a <= n.
Proof.
  intros Hn Ha. unfold trunc. pose proof one_pos as H1.
  destruct (Z_lt_le_dec a 0) as [Hneg|Hpos].
  - pose proof (Z.quot_le_mono a 0 one H1 ltac:(lia)) as Hq.
    rewrite Z.quot_0_l in Hq by lia. lia.
  - rewrite Z.quot_div_nonneg by lia.
    apply Z.lt_succ_r. apply Z.div_lt_upper_bound; lia.
Qed.

End F32Facts.

(** ** The random source *)

Lemma random_fst lo hi g : lo < hi -> lo <= fst (random lo hi g) < hi.
Proof.
  intros H. unfold random.
  destruct (Z.geb_spec lo hi); [lia|].
  unfold bind, next_raw, ret. cbn [fst].
  pose proof (Z.mod_pos_bound (Z.of_N (g 0%nat)) (hi - lo)). lia.
Qed.

(** ** [Ball::Ball] and [Ball::move], field by field *)

Import Ball.
Import F32Facts.

Ltac split_draws :=
  repeat match goal with
         | |- context [random ?a ?c ?h] => destruct (random a c h) eqn:?
         end.

Lemma move_eq tft b g :
  fst (move tft b g) =
  let x' := F32.add (x b) (new_dx tft b g) in
  let y' := F32.add (y b) (new_dy tft b g) in
  {| x := x'; y := y'; dx := new_dx tft b g; dy := new_dy tft b g;
     ix := Int.to_int (F32.trunc x'); iy := Int.to_int (F32.trunc y');
     ox := ix b; oy := iy b; radius := radius b; color := color b |}.
Proof.
  unfold move, new_dx, new_dy, rng_after_wall, bind, ret.
  destruct (hits_wall tft b); destruct (hits_ground tft b);
    split_draws; cbn [fst snd] in *; congruence.
Qed.

Lemma move_x tft b g : x (fst (move tft b g)) = F32.add (x b) (new_dx tft b g).
Proof. rewrite move_eq. reflexivity. Qed.

Lemma move_y tft b g : y (fst (move tft b g)) = F32.add (y b) (new_dy tft b g).
Proof. rewrite move_eq. reflexivity. Qed.

Lemma move_dx tft b g : dx (fst (move tft b g)) = new_dx tft b g.
Proof. rewrite move_eq. reflexivity. Qed.

Lemma move_dy tft b g : dy (fst (move tft b g)) = new_dy tft b g.
Proof. rewrite move_eq. reflexivity. Qed.

Lemma move_radius tft b g : radius (fst (move tft b g)) = radius b.
Proof. rewrite move_eq. reflexivity. Qed.

Lemma move_color tft b g : color (fst (move tft b g)) = color b.
Proof. rewrite move_eq. reflexivity. Qed.

(** [move] saves the cell and stores the truncated position. *)
Lemma move_cells tft b g :
  let b' := fst (move tft b g) in
  ix b' = Int.to_int (F32.trunc (x b')) /\
  iy b' = Int.to_int (F32.trunc (y b')) /\
  ox b' = ix b /\ oy b' = iy b.
Proof. rewrite move_eq. repeat split. Qed.

Lemma move_typed tft b g : typed b -> typed (fst (move tft b g)).
Proof.
  intros (Hx & Hy & _). pose proof (move_cells tft b g) as (Ex & Ey & Eox & Eoy).
  unfold typed. rewrite Ex, Ey, Eox, Eoy.
  auto using to_int_range.
Qed.

Lemma move_sized tft b g : sized b -> sized (fst (move tft b g)).
Proof. unfold sized. now rewrite move_radius. Qed.

(** What every [move] preserves holds after any number of steps. *)
Lemma moves_invariant tft (P : t -> Prop) :
  (forall b g, P b -> P (fst (move tft b g))) ->
  forall n b g, P b -> P (fst (moves n tft b g)).
Proof.
  intros Hstep. induction n as [|n IH]; intros b g Hb; [exact Hb|].
  cbn [moves]. unfold bind.
  pose proof (Hstep b g Hb) as Hb'.
  destruct (move tft b g) as [b1 g1]. cbn [fst] in Hb'.
  apply IH. exact Hb'.
Qed.

(** The constructor leaves the four cells as it found them. *)
Lemma Ball_cells tft mem g :
  let b := fst (Ball.Ball tft mem g) in
  ix b = ix mem /\ iy b = iy mem /\ ox b = ox mem /\ oy b = oy mem.
Proof.
  unfold Ball.Ball, bind, ret. split_draws. cbn [fst ix iy ox oy]. auto.
Qed.

Lemma Ball_sized tft mem g : sized (fst (Ball.Ball tft mem g)).
Proof.
  unfold Ball.Ball, sized, bind, ret.
  pose proof (random_fst 6 12 g ltac:(lia)) as Hr.
  destruct (random 6 12 g) as [r g1]. cbn [fst] in Hr.
  split_draws. cbn [fst radius]. unwrap. lia.
Qed.

Lemma Ball_typed tft mem g : typed mem -> typed (fst (Ball.Ball tft mem g)).
Proof.
  intros H. pose proof (Ball_cells tft mem g) as (E1 & E2 & E3 & E4).
  unfold typed. now rewrite E1, E2, E3, E4.
Qed.

(** ** The speeds [k / 10.0] *)

Lemma speed_checks_all :
  forallb speed_checks (map Z.of_nat (seq 20 26)) = true.
Proof. vm_compute. reflexivity. Qed.

Lemma speed_facts k : 20 <= k <= 45 -> speed_checks k = true.
Proof.
  intros Hk. pose proof speed_checks_all as H.
  rewrite forallb_forall in H. apply H.
  rewrite in_map_iff. exists (Z.to_nat k). split; [lia|].
  apply in_seq. lia.
Qed.

Lemma tenths_range k : 20 <= k <= 45 -> 2 * F32.one <= tenths k <= 5 * F32.one.
Proof.
  intros Hk. pose proof (speed_facts k Hk) as H. unfold speed_checks in H.
  rewrite !andb_true_iff in H. lia.
Qed.

Lemma tenths_opp k : 20 <= k <= 45 -> tenths (- k) = - tenths k.
Proof.
  intros Hk. pose proof (speed_facts k Hk) as H. unfold speed_checks in H.
  rewrite !andb_true_iff in H. lia.
Qed.

Lemma mul_sign k (p : bool) :
  20 <= k <= 45 ->
  F32.mul (tenths k) (F32.of_int (if p then -1 else 1)) =
  if p then - tenths k else tenths k.
Proof.
  intros Hk. pose proof (speed_facts k Hk) as H. unfold speed_checks in H.
  rewrite !andb_true_iff in H. destruct p; lia.
Qed.

(** The gravity increment is positive and at most 1/16. *)
Lemma gravity_small : 0 < gravity /\ 2 * gravity <= 2 ^ 146.
Proof. by_evaluation. Qed.

(** ** [Ball::erase] and [Ball::draw] without overflow *)

Lemma mx_exact b : no_overflow b -> mx b = ix b - ox b.
Proof. intros H. apply to_int_id, H. Qed.

Lemma my_exact b : no_overflow b -> my b = iy b - oy b.
Proof. intros H. apply to_int_id, H. Qed.

Lemma erase_horizontal_exact b :
  sized b -> no_overflow b ->
  erase_horizontal b =
    if ix b - ox b >? 0 then
      [mkFill (ox b - radius b) (oy b - radius b)
              (ix b - ox b) (2 * radius b) BACKGROUND]
    else if ix b - ox b <? 0 then
      [mkFill (ix b + radius b) (oy b - radius b)
              (ox b - ix b) (2 * radius b) BACKGROUND]
    else [].
Proof.
  intros Hs Hn. unfold erase_horizontal. rewrite (mx_exact b Hn).
  unfold sized, no_overflow in *.
  destruct (Z.gtb_spec (ix b - ox b) 0);
    [|destruct (Z.ltb_spec (ix b - ox b) 0)]; try reflexivity;
    unfold fillRect; f_equal; f_equal; try reflexivity; unwrap; lia.
Qed.

Lemma erase_vertical_exact b :
  sized b -> no_overflow b ->
  erase_vertical b =
    if iy b - oy b >? 0 then
      [mkFill (ox b - radius b) (oy b - radius b)
              (2 * radius b) (iy b - oy b) BACKGROUND]
    else if iy b - oy b <? 0 then
      [mkFill (ox b - radius b) (iy b + radius b)
              (2 * radius b) (oy b - iy b) BACKGROUND]
    else [].
Proof.
  intros Hs Hn. unfold erase_vertical. rewrite (my_exact b Hn).
  unfold sized, no_overflow in *.
  destruct (Z.gtb_spec (iy b - oy b) 0);
    [|destruct (Z.ltb_spec (iy b - oy b) 0)]; try reflexivity;
    unfold fillRect; f_equal; f_equal; try reflexivity; unwrap; lia.
Qed.

Lemma draw_exact b :
  sized b -> no_overflow b ->
  draw b = [mkFill (ix b - radius b) (iy b - radius b)
                   (2 * radius b) (2 * radius b) (Int.to_uint (color b))].
Proof.
  intros Hs Hn. unfold sized, no_overflow, draw, fillRect in *.
  f_equal. f_equal; unwrap; lia.
Qed.

(** ** Traces *)

Lemma calls_app t1 t2 : calls (t1 ++ t2) = calls t1 ++ calls t2.
Proof.
  induction t1 as [|[m i|c] t1 IH]; cbn [app calls];
    [reflexivity| |assumption].
  now rewrite IH.
Qed.

Lemma fills_app t1 t2 : fills (t1 ++ t2) = fills t1 ++ fills t2.
Proof.
  induction t1 as [|[m i|c] t1 IH]; cbn [app fills];
    [reflexivity|assumption|].
  now rewrite IH.
Qed.

Lemma calls_Fill l : calls (map Fill l) = [].
Proof. induction l; cbn [map calls]; auto. Qed.

Lemma fills_Fill l : fills (map Fill l) = l.
Proof. induction l; cbn [map fills]; congruence. Qed.

Lemma erase_all_trace bs : forall i,
  calls (erase_all i bs) = map (pair Erase) (seq i (length bs)) /\
  fills (erase_all i bs) = flat_map erase bs.
Proof.
  induction bs as [|b bs IH]; intros i; [split; reflexivity|].
  destruct (IH (S i)) as [IHc IHf].
  cbn [erase_all calls fills length seq map flat_map].
  rewrite calls_app, fills_app, calls_Fill, fills_Fill, IHc, IHf.
  split; reflexivity.
Qed.

Lemma draw_all_trace bs : forall i,
  calls (draw_all i bs) = map (pair Draw) (seq i (length bs)) /\
  fills (draw_all i bs) = flat_map draw bs.
Proof.
  induction bs as [|b bs IH]; intros i; [split; reflexivity|].
  destruct (IH (S i)) as [IHc IHf].
  cbn [draw_all calls fills length seq map flat_map].
  rewrite calls_app, fills_app, calls_Fill, fills_Fill, IHc, IHf.
  split; reflexivity.
Qed.

Lemma move_all_trace tft bs : forall i g,
  let r := fst (move_all tft i bs g) in
  Forall2 (moved tft) bs (fst r) /\
  calls (snd r) = map (pair Move) (seq i (length bs)) /\
  fills (snd r) = [].
Proof.
  induction bs as [|b bs IH]; intros i g.
  - cbn. repeat split. constructor.
  - cbn [move_all]. unfold bind.
    destruct (move tft b g) as [b' g1] eqn:Hm.
    specialize (IH (S i) g1).
    destruct (move_all tft (S i) bs g1) as [[bs' ev] g2].
    cbn [fst snd ret] in *. destruct IH as (IH1 & IH2 & IH3).
    cbn [calls fills length seq map]. rewrite IH2, IH3.
    repeat split. constructor; [|assumption].
    exists g. now rewrite Hm.
Qed.

(** ** The gate of [loop] *)

Lemma loop_gated ms w : Int.to_ulong (ms - lastms w) <= 5 -> loop ms w = w.
Proof.
  intros H. unfold loop.
  destruct (Z.leb_spec (Int.to_ulong (ms - lastms w)) 5); [reflexivity|lia].
Qed.

Lemma loop_lastms ms w :
  5 < Int.to_ulong (ms - lastms w) -> lastms (loop ms w) = ms.
Proof.
  intros H. unfold loop.
  destruct (Z.leb_spec (Int.to_ulong (ms - lastms w)) 5); [lia|].
  destruct (move_all (tft w) 0 (balls w) (rng w)) as [[bs ev] g]. reflexivity.
Qed.

(** ** What holds of every ball in a run *)

Lemma create_balls_spec tft mems : forall g,
  let bs := fst (create_balls tft mems g) in
  length bs = length mems /\ Forall sized bs /\
  (Forall typed mems -> Forall typed bs).
Proof.
  induction mems as [|mem mems IH]; intros g.
  - cbn. auto.
  - cbn [create_balls]. unfold bind.
    pose proof (Ball_sized tft mem g) as Hs.
    pose proof (Ball_typed tft mem g) as Ht.
    destruct (Ball.Ball tft mem g) as [b g1]. cbn [fst] in Hs, Ht.
    specialize (IH g1).
    destruct (create_balls tft mems g1) as [bs g2].
    cbn [fst ret length] in *. destruct IH as (IHl & IHs & IHt).
    repeat split; [lia | constructor; assumption |].
    intros Hm. inversion Hm; subst. constructor; auto.
Qed.

(** [setup] creates [BALLCOUNT] balls, each with a constructed radius. *)
Lemma setup_balls tft mem ms g :
  length (balls (setup tft mem ms g)) = BALLCOUNT /\
  Forall sized (balls (setup tft mem ms g)).
Proof.
  unfold setup.
  pose proof (create_balls_spec tft (map mem (seq 0 BALLCOUNT)) g) as H.
  destruct (create_balls tft (map mem (seq 0 BALLCOUNT)) g) as [bs g'].
  cbn [fst balls] in *. destruct H as (Hl & Hs & _).
  split; [|assumption]. now rewrite Hl, length_map, length_seq.
Qed.

Lemma moved_all_preserve tft (P : t -> Prop) :
  (forall b g, P b -> P (fst (move tft b g))) ->
  forall bs bs', Forall2 (moved tft) bs bs' -> Forall P bs -> Forall P bs'.
Proof.
  intros Hstep bs bs' H2. induction H2 as [|b b' bs bs' [g ->] _ IH];
    intros HP; [constructor|].
  inversion HP; subst. constructor; auto.
Qed.

(** [loop] keeps the number of balls, their radii and their [int] cells. *)
Lemma loop_balls ms w :
  length (balls (loop ms w)) = length (balls w) /\
  (Forall sized (balls w) -> Forall sized (balls (loop ms w))) /\
  (Forall typed (balls w) -> Forall typed (balls (loop ms w))).
Proof.
  unfold loop.
  destruct (Z.leb_spec (Int.to_ulong (ms - lastms w)) 5); [auto|].
  pose proof (move_all_trace (tft w) (balls w) 0%nat (rng w)) as Hm.
  destruct (move_all (tft w) 0 (balls w) (rng w)) as [[bs ev] g].
  cbn [fst snd balls] in *. destruct Hm as (Hf & _).
  repeat split.
  - symmetry. eapply Forall2_length; eauto.
  - apply (moved_all_preserve (tft w) sized); [|assumption].
    intros b0 g0. apply move_sized.
  - apply (moved_all_preserve (tft w) typed); [|assumption].
    intros b0 g0. apply move_typed.
Qed.

(** * The claims *)

(** ** C1: the cells after construction *)

(** C1.  The constructor assigns neither cell: the constructed ball keeps
    whatever [ix], [iy], [ox] and [oy] its storage held.  On storage whose
    old and new cell differ, the old cell differs from the new cell right
    after construction, [erase] on that ball issues a [fillRect], and so
    does the first [erase] of the sketch, the one after the first [move]. *)
Theorem C1_constructor_leaves_cells_unset :
  (forall tft mem g,
      let b := fst (Ball.Ball tft mem g) in
      (ix b, iy b, ox b, oy b) = (ix mem, iy mem, ox mem, oy mem)) /\
  (ox falling_ball, oy falling_ball) <> (ix falling_ball, iy falling_ball) /\
  erase falling_ball <> [] /\
  erase (fst (move landscape falling_ball
                   (snd (Ball.Ball landscape stale falling_draws)))) <> [].
Proof.
  split; [|split; [|split]].
  - intros tft mem g b.
    destruct (Ball_cells tft mem g) as (E1 & E2 & E3 & E4).
    unfold b. now rewrite E1, E2, E3, E4.
  - vm_compute. discriminate.
  - vm_compute. discriminate.
  - vm_compute. discriminate.
Qed.

(** ** C2: what one step erases and draws *)

Lemma scenario_moved_eq g :
  scenario_moved g =
  {| x := F32.of_int 53; y := F32.add (F32.of_int 50) (F32.add (F32.of_int 3) gravity);
     dx := F32.of_int 3; dy := F32.add (F32.of_int 3) gravity;
     ix := 53; iy := 53; ox := 50; oy := 50; radius := 10; color := 2016 |}.
Proof. vm_compute. reflexivity. Qed.

Lemma scenario_erase g :
  erase (scenario_moved g) = [mkFill 40 40 3 20 0; mkFill 40 40 20 3 0].
Proof. rewrite scenario_moved_eq. vm_compute. reflexivity. Qed.

Lemma scenario_draw g :
  draw (scenario_moved g) = [mkFill 43 43 20 20 2016].
Proof. rewrite scenario_moved_eq. vm_compute. reflexivity. Qed.


(** A movement longer than the box is wide: [erase] fills the pixel
    (56, 50), which lies in neither the old nor the new box. *)
Lemma long_jump_erases_outside :
  exists c, In c (erase long_jump) /\ covers c 56 50 /\
            ~ old_box long_jump 56 50 /\ ~ new_box long_jump 56 50.
Proof.
  exists (mkFill 44 44 13 12 0). split; [|split; [|split]].
  - vm_compute. auto.
  - unfold covers. cbn [fx fy fw fh]. lia.
  - unfold old_box, box. cbn [ox oy radius long_jump]. lia.
  - unfold new_box, box. cbn [ix iy radius long_jump]. lia.
Qed.



(** ** C3: the end-to-end scenario *)

(** C3, as worded, fails: no call of [erase] starts at x = 60. *)
Lemma C3_no_strip_at_the_leading_edge :
  ~ scenario_leading_strip (scenario_moved falling_draws).
Proof.
  intros (_ & _ & (h & Hin & Hh) & _).
  rewrite scenario_erase in Hin.
  destruct Hin as [<-|[<-|[]]]; discriminate Hh.
Qed.

(** C3, amended.  On the 240 x 320 surface the ball of radius 10 at (50, 50)
    with speed (3, 3) is, after one [move], at cell (53, 53) with old cell
    (50, 50).  [erase] clears the 3 x 20 strip x in [40, 43), y in [40, 60)
    and the 20 x 3 strip x in [40, 60), y in [40, 43): the two trailing
    edges of the old box.  [draw] fills the 20 x 20 box x, y in [43, 63),
    centred on (53, 53). *)
Theorem C3_scenario g :
  let b := scenario_moved g in
  (ix b, iy b) = (53, 53) /\ (ox b, oy b) = (50, 50) /\
  hits_wall upright scenario_start = false /\
  hits_ground upright scenario_start = false /\
  erase b = [mkFill (50 - 10) (50 - 10) 3 20 BACKGROUND;
             mkFill (50 - 10) (50 - 10) 20 3 BACKGROUND] /\
  draw b = [mkFill (53 - 10) (53 - 10) 20 20 (color b)] /\
  (forall px py, new_box b px py <-> 43 <= px < 63 /\ 43 <= py < 63).
Proof.
  intros b. unfold b.
  rewrite scenario_erase, scenario_draw, scenario_moved_eq.
  repeat split; try (vm_compute; reflexivity);
    unfold new_box, box in *; cbn [ix iy radius] in *; lia.
Qed.

(** ** C4: between the walls *)

(** C4.  On a surface at least [2 * radius + 11] wide, a ball whose [dx] is
    a speed the constructor or a bounce can produce, and whose [x] lies in
    [[radius, width - radius]], has its [x] in that interval again after
    [move]; its [dx] is again such a speed.  The sum [x + dx] that is
    tested is the sum that is stored when no bound is in reach; when one
    is, the old speed was at most 5 and the new one is at most 5 the other
    way. *)
Theorem C4_horizontal_containment tft b g :
  0 <= radius b -> 2 * radius b + 11 <= width tft <= 65535 ->
  bounce_speed (dx b) ->
  within_walls tft b ->
  within_walls tft (fst (move tft b g)) /\
  bounce_speed (dx (fst (move tft b g))).
Proof.
  intros Hr0 HW (k0 & Hk0 & Hv) (Hlo & Hhi).
  unfold within_walls. rewrite move_x, move_dx, move_radius.
  set (r := radius b) in *. set (W := width tft) in *.
  pose proof (tenths_range k0 ltac:(lia)) as Hk0r.
  pose proof one_eq as Hone.
  rewrite !of_int_small in * by lia.
  assert (Hright : Int.to_uint (W - r) = W - r)
    by (apply to_uint_id; unfold Int.is_uint; lia).
  unfold new_dx, hits_wall, reaches_left, reaches_right. fold r W.
  rewrite Hright, !of_int_small by lia.
  set (s := F32.add (x b) (dx b)).
  set (k := fst (random 20 45 g)).
  assert (Hk : 20 <= k < 45) by (apply random_fst; lia).
  pose proof (tenths_range k ltac:(lia)) as Hkr.
  unfold F32.leb, F32.geb, F32.gtb.
  destruct (Z.leb_spec s (r * F32.one)) as [Hl|Hl]; cbn [orb].
  - (* the sum reached the left bound *)
    rewrite mul_sign by lia. rewrite Z.gtb_ltb.
    destruct (Z.ltb_spec 0 (dx b)) as [Hpos|Hneg].
    + exfalso.
      assert ((r + 2) * F32.one <= s).
      { rewrite <- round_small by lia. apply round_mono. lia. }
      lia.
    + assert (Hx : x b + dx b <= (r + 1) * F32.one).
      { destruct (Z_le_gt_dec (x b + dx b) ((r + 1) * F32.one));
          [assumption|].
        assert ((r + 1) * F32.one <= s).
        { rewrite <- round_small by lia. apply round_mono. lia. }
        lia. }
      split; [split|].
      * rewrite <- (round_small r) by lia. apply round_mono. lia.
      * rewrite <- (round_small (W - r)) by lia. apply round_mono. lia.
      * exists k. auto.
  - destruct (Z.geb_spec s ((W - r) * F32.one)) as [Hg|Hg].
    + (* the sum reached the right bound *)
      rewrite mul_sign by lia. rewrite Z.gtb_ltb.
      destruct (Z.ltb_spec 0 (dx b)) as [Hpos|Hneg].
      * assert (Hx : (W - r - 1) * F32.one <= x b + dx b).
        { destruct (Z_le_gt_dec ((W - r - 1) * F32.one) (x b + dx b));
            [assumption|].
          assert (s <= (W - r - 1) * F32.one).
          { rewrite <- round_small by lia. apply round_mono. lia. }
          lia. }
        split; [split|].
        -- rewrite <- (round_small r) by lia. apply round_mono. lia.
        -- rewrite <- (round_small (W - r)) by lia. apply round_mono. lia.
        -- exists k. auto.
      * exfalso.
        assert (s <= (W - r - 2) * F32.one).
        { rewrite <- round_small by lia. apply round_mono. lia. }
        lia.
    + (* no bound in reach: the sum that was tested is the new position *)
      fold s. split; [lia|]. exists k0. auto.
Qed.

Lemma at_right_wall_within : within_walls upright at_right_wall.
Proof. unfold within_walls. by_evaluation. Qed.

Lemma at_right_wall_speed : bounce_speed (dx at_right_wall).
Proof. exists 30. split; [lia|]. left. reflexivity. Qed.

Lemma C4_horizontal_containment_witness :
  within_walls upright (fst (move upright at_right_wall falling_draws)) /\
  bounce_speed (dx (fst (move upright at_right_wall falling_draws))).
Proof.
  apply C4_horizontal_containment.
  - cbn [radius at_right_wall]. lia.
  - cbn [radius at_right_wall width upright]. lia.
  - exact at_right_wall_speed.
  - exact at_right_wall_within.
Defined.

(** The constructor puts the ball between the walls, moving right. *)
Lemma Ball_within_walls tft mem g :
  33 <= width tft <= 65535 ->
  let b := fst (Ball.Ball tft mem g) in
  within_walls tft b /\ bounce_speed (dx b).
Proof.
  intros HW. unfold Ball.Ball, within_walls, bind, ret.
  pose proof (random_fst 6 12 g ltac:(lia)) as Hr.
  destruct (random 6 12 g) as [r g1]. cbn [fst] in Hr.
  destruct (random BLACK WHITE g1) as [c g2].
  assert (Er : Int.to_uint r = r) by (apply to_uint_id; unfold Int.is_uint; lia).
  rewrite Er.
  assert (Ew : Int.to_uint (width tft - r) = width tft - r)
    by (apply to_uint_id; unfold Int.is_uint; lia).
  rewrite Ew.
  pose proof (random_fst r (width tft - r) g2 ltac:(lia)) as Hx.
  destruct (random r (width tft - r) g2) as [px g3]. cbn [fst] in Hx.
  destruct (random r _ g3) as [py g4].
  pose proof (random_fst 20 45 g4 ltac:(lia)) as Hk.
  destruct (random 20 45 g4) as [kx g5]. cbn [fst] in Hk.
  destruct (random 20 45 g5) as [ky g6].
  cbn [fst x dx radius]. split.
  - split; apply of_int_mono; lia.
  - exists kx. auto.
Qed.

(** ** C5: the ground *)

Lemma falling_ball_constructed :
  radius falling_ball = 6 /\
  x falling_ball = F32.of_int 106 /\ y falling_ball = F32.of_int 162 /\
  dx falling_ball = tenths 20 /\ dy falling_ball = tenths 44.
Proof. repeat split; vm_compute; reflexivity. Qed.

(** C5, as worded, fails on a ball of a real run.  The ball constructed
    with radius 6 at y = 162 and vertical speed 4.4 on the 320 x 240 panel
    has y <= 234, the ground bound, after 14 steps; the 15th step does not
    take the ground branch, adds gravity and leaves y at 234 + 2^-15, past
    the bound. *)
Lemma C5_gravity_step_passes_the_bound :
  above_ground landscape (fst falling_14) /\
  hits_ground landscape (fst falling_14) = false /\
  ~ above_ground landscape falling_15 /\
  y falling_15 = F32.of_int 234 + F32.one / 32768.
Proof.
  split; [|split; [|split]].
  - unfold above_ground. by_evaluation.
  - vm_compute. reflexivity.
  - unfold above_ground. apply Z.lt_nge. by_evaluation.
  - vm_compute. reflexivity.
Qed.

(** C5, amended.  A ball with [y <= height - radius] whose vertical speed
    is at most 2^20 either way has, after [move], [y] strictly below
    [height - radius + 1], so [y] truncates to at most [height - radius],
    and that is the cell [iy] when it fits an [int]; when the ground branch
    is taken, [y <= height - radius] holds again. *)
Theorem C5_ground_bound_within_a_pixel tft b g :
  0 <= radius b <= height tft -> height tft <= 65535 ->
  bounded_fall b ->
  above_ground tft b ->
  let b' := fst (move tft b g) in
  let B := height tft - radius b in
  (hits_ground tft b = true -> above_ground tft b') /\
  y b' < F32.of_int (B + 1) /\
  F32.trunc (y b') <= B /\
  (Int.is_int (F32.trunc (y b')) -> iy b' <= B).
Proof.
  intros Hr HH Hdy Hy b' B.
  unfold above_ground, bounded_fall in *. fold B in Hy.
  pose proof one_eq as H1.
  assert (HB : 0 <= B <= 65535) by (unfold B; lia).
  rewrite of_int_small in Hy, Hdy by lia.
  assert (Hy' : y b' = F32.add (y b) (new_dy tft b g)) by apply move_y.
  assert (Hrad : radius b' = radius b) by apply move_radius.
  assert (Hcases : (hits_ground tft b = true -> y b' <= B * F32.one) /\
                   2 * y b' <= (2 * B + 1) * F32.one).
  { rewrite Hy'. unfold new_dy.
    destruct (hits_ground tft b) eqn:Hg.
    - (* ground: the new speed points up *)
      set (k := fst (random (-45) (-20) (rng_after_wall tft b g))).
      assert (Hk : -45 <= k < -20) by (apply random_fst; lia).
      pose proof (tenths_range (- k) ltac:(lia)) as Hkr.
      pose proof (tenths_opp (- k) ltac:(lia)) as Hko.
      rewrite Z.opp_involutive in Hko.
      assert (F32.add (y b) (tenths k) <= B * F32.one).
      { rewrite <- round_small by lia. apply round_mono. lia. }
      split; [intros _; assumption | lia].
    - (* air: the test passed on the old speed, gravity is added after *)
      split; [discriminate|].
      unfold hits_ground, F32.geb in Hg. fold B in Hg.
      assert (Hu : Int.to_uint B = B)
        by (apply to_uint_id; unfold Int.is_uint; lia).
      rewrite Hu, of_int_small in Hg by lia.
      destruct (Z.geb_spec (F32.add (y b) (dy b)) (B * F32.one)) as [|Hs];
        [discriminate|].
      assert (Hsum : y b + dy b < B * F32.one).
      { destruct (Z_lt_le_dec (y b + dy b) (B * F32.one)); [assumption|].
        assert (B * F32.one <= F32.add (y b) (dy b)).
        { rewrite <- round_small by lia. apply round_mono. lia. }
        lia. }
      destruct gravity_small as [Hc0 Hc1].
      assert (Ho : 2 ^ 149 = 8 * 2 ^ 146) by reflexivity.
      assert (Hq : 2 ^ 148 = 4 * 2 ^ 146) by reflexivity.
      (* a representable number just above [dy + gravity] *)
      set (m := (dy b + gravity) / 2 ^ 146 + 1).
      assert (Hexm : F32.round (m * 2 ^ 146) = m * 2 ^ 146).
      { apply round_exact; [|lia]. unfold m.
        change (2 ^ 24) with 16777216.
        set (p := 2 ^ 146) in *. assert (0 < p) by reflexivity.
        pose proof (Z.div_mod (dy b + gravity) p ltac:(lia)).
        pose proof (Z.mod_pos_bound (dy b + gravity) p ltac:(lia)). nia. }
      assert (Hexh : F32.round ((2 * B + 1) * 2 ^ 148) = (2 * B + 1) * 2 ^ 148).
      { apply round_exact; [change (2 ^ 24) with 16777216|]; lia. }
      set (p := 2 ^ 146) in *. assert (Hp : 0 < p) by reflexivity.
      assert (Hm : dy b + gravity <= m * p <= dy b + gravity + p).
      { unfold m. pose proof (Z.div_mod (dy b + gravity) p ltac:(lia)).
        pose proof (Z.mod_pos_bound (dy b + gravity) p Hp). lia. }
      assert (Hdy' : F32.add (dy b) gravity <= m * p).
      { rewrite <- Hexm. apply round_mono. lia. }
      assert (F32.add (y b) (F32.add (dy b) gravity) <= (2 * B + 1) * 2 ^ 148).
      { rewrite <- Hexh. apply round_mono. lia. }
      lia. }
  destruct Hcases as [Hbounce Hhalf].
  assert (Hlt : y b' < (B + 1) * F32.one) by lia.
  assert (Htr : F32.trunc (y b') <= B) by (apply trunc_below; lia).
  split; [|split; [|split]].
  - intros Hg. rewrite Hrad. fold B. rewrite of_int_small by lia. auto.
  - rewrite of_int_small by lia. exact Hlt.
  - exact Htr.
  - intros Hint. destruct (move_cells tft b g) as (_ & Eiy & _).
    fold b' in Eiy. rewrite Eiy, to_int_id by assumption. exact Htr.
Qed.

Lemma C5_ground_bound_within_a_pixel_witness :
  let b' := fst (move landscape (fst falling_14) (snd falling_14)) in
  let B := height landscape - radius (fst falling_14) in
  (hits_ground landscape (fst falling_14) = true -> above_ground landscape b') /\
  y b' < F32.of_int (B + 1) /\
  F32.trunc (y b') <= B /\
  (Int.is_int (F32.trunc (y b')) -> iy b' <= B).
Proof.
  apply C5_ground_bound_within_a_pixel.
  - by_evaluation.
  - by_evaluation.
  - unfold bounded_fall. by_evaluation.
  - unfold above_ground. by_evaluation.
Defined.

(** ** C6: bounce reversal *)

(** C6.  When [dx > 0] and [x + dx] reaches the right bound, or [dx < 0]
    and [x + dx] reaches the left bound, [move] stores a [dx] of the
    opposite sign whose magnitude is [k / 10.0] for the [k] in [[20, 45)]
    that the generator yields next: between 2 and 5, whatever the old
    magnitude was. *)
Theorem C6_bounce_reversal tft b g :
  crossing tft b ->
  let b' := fst (move tft b g) in
  let k := fst (random 20 45 g) in
  20 <= k < 45 /\
  dx b' = (if F32.gtb (dx b) 0 then - tenths k else tenths k) /\
  2 * F32.one <= tenths k <= 5 * F32.one /\
  (0 < dx b -> dx b' < 0) /\
  (dx b < 0 -> 0 < dx b').
Proof.
  intros Hc b' k.
  assert (Hk : 20 <= k < 45) by (apply random_fst; lia).
  assert (Hw : hits_wall tft b = true).
  { unfold hits_wall. destruct Hc as [[_ ->]|[_ ->]]; auto using orb_true_r. }
  assert (Hdx : dx b' = if F32.gtb (dx b) 0 then - tenths k else tenths k).
  { unfold b'. rewrite move_dx. unfold new_dx. rewrite Hw.
    fold k. now rewrite mul_sign by lia. }
  pose proof (tenths_range k ltac:(lia)) as Hr.
  pose proof one_pos as H1.
  repeat split; try lia; try assumption.
  - intros Hpos. rewrite Hdx. unfold F32.gtb.
    destruct (Z.gtb_spec (dx b) 0); lia.
  - intros Hneg. rewrite Hdx. unfold F32.gtb.
    destruct (Z.gtb_spec (dx b) 0); lia.
Qed.

Lemma at_right_wall_crossing : crossing upright at_right_wall.
Proof. left. split; [by_evaluation | vm_compute; reflexivity]. Qed.

Lemma C6_bounce_reversal_witness :
  let b' := fst (move upright at_right_wall falling_draws) in
  let k := fst (random 20 45 falling_draws) in
  20 <= k < 45 /\
  dx b' = (if F32.gtb (dx at_right_wall) 0 then - tenths k else tenths k) /\
  2 * F32.one <= tenths k <= 5 * F32.one /\
  (0 < dx at_right_wall -> dx b' < 0) /\
  (dx at_right_wall < 0 -> 0 < dx b').
Proof. apply C6_bounce_reversal. exact at_right_wall_crossing. Defined.

(** ** C7: rate gating *)

(** C7.  After a run of [loop] at time [ms1] that passed the gate, a run
    at time [ms2] with [ms2 - ms1], as an [unsigned long], at most 5 returns
    the state as it was: same balls, same [lastms], same generator, and no
    event added to the trace. *)
Theorem C7_rate_gating ms1 ms2 w :
  5 < Int.to_ulong (ms1 - lastms w) ->
  Int.to_ulong (ms2 - ms1) <= 5 ->
  loop ms2 (loop ms1 w) = loop ms1 w.
Proof.
  intros H1 H2. apply loop_gated. rewrite loop_lastms by assumption. exact H2.
Qed.

Lemma started_lastms : lastms started = 0.
Proof. vm_compute. reflexivity. Qed.

Lemma C7_rate_gating_witness :
  loop 14 (loop 10 started) = loop 10 started.
Proof.
  apply C7_rate_gating.
  - rewrite started_lastms. by_evaluation.
  - by_evaluation.
Defined.

(** ** C8: three passes *)

(** C8.  A run of [loop] that passes the gate appends to the trace, for the
    [n] balls in their array order: [move] on balls 0 .. n-1, then [erase]
    on balls 0 .. n-1, then [draw] on balls 0 .. n-1.  Every ball is moved
    once; the calls that reach the display are the erase calls of every
    moved ball followed by the draw calls of every moved ball, in the same
    order of balls. *)
Theorem C8_three_passes ms w :
  5 < Int.to_ulong (ms - lastms w) ->
  let w' := loop ms w in
  let n := length (balls w) in
  exists ev,
    trace w' = trace w ++ ev /\
    calls ev = map (pair Move) (seq 0 n) ++ map (pair Erase) (seq 0 n)
               ++ map (pair Draw) (seq 0 n) /\
    fills ev = flat_map erase (balls w') ++ flat_map draw (balls w') /\
    Forall2 (moved (tft w)) (balls w) (balls w').
Proof.
  intros H w' n. unfold w', loop.
  destruct (Z.leb_spec (Int.to_ulong (ms - lastms w)) 5); [lia|].
  pose proof (move_all_trace (tft w) (balls w) 0%nat (rng w)) as Hm.
  destruct (move_all (tft w) 0 (balls w) (rng w)) as [[bs ev] g].
  cbn [fst snd] in Hm. destruct Hm as (Hf & Hc & Hfl).
  cbn [trace balls].
  exists (ev ++ erase_all 0 bs ++ draw_all 0 bs).
  assert (Hlen : length bs = n).
  { unfold n. symmetry. eapply Forall2_length; eauto. }
  destruct (erase_all_trace bs 0) as [Hec Hef].
  destruct (draw_all_trace bs 0) as [Hdc Hdf].
  rewrite !calls_app, !fills_app, Hc, Hfl, Hec, Hef, Hdc, Hdf, Hlen.
  repeat split; assumption.
Qed.

Lemma C8_three_passes_witness :
  let w' := loop 10 started in
  let n := length (balls started) in
  exists ev,
    trace w' = trace started ++ ev /\
    calls ev = map (pair Move) (seq 0 n) ++ map (pair Erase) (seq 0 n)
               ++ map (pair Draw) (seq 0 n) /\
    fills ev = flat_map erase (balls w') ++ flat_map draw (balls w') /\
    Forall2 (moved (tft started)) (balls started) (balls w').
Proof.
  apply C8_three_passes. rewrite started_lastms. by_evaluation.
Defined.

(** ** C9: erase stays clear of the new box *)

(** C9.  For every ball with [int] cells and a constructed radius, whatever
    the movement, zero and longer than the box included: no call of [erase]
    fills a pixel that the call of [draw] fills.  Without [int] overflow
    what [draw] fills is the box [[ix - radius, ix + radius)] by
    [[iy - radius, iy + radius)], the horizontal strip and that box meet
    along x, one ending where the other begins, and the vertical strip and
    the box meet along y. *)
Theorem C9_erase_clear_of_draw b :
  typed b -> sized b ->
  forall d, In d (draw b) ->
    (forall c, In c (erase b) -> disjoint c d) /\
    (no_overflow b ->
       (forall px py, covers d px py <-> new_box b px py) /\
       (forall c, In c (erase_horizontal b) -> abuts_x c d) /\
       (forall c, In c (erase_vertical b) -> abuts_y c d)).
Proof.
  intros (Hix & Hiy & Hox & Hoy) Hr d Hd.
  unfold erase, erase_horizontal, erase_vertical, draw,
         disjoint, abuts_x, abuts_y, no_overflow, mx, my, new_box, box in *.
  destruct Hd as [<-|[]].
  set (m_x := Int.to_int (ix b - ox b)) in *.
  set (m_y := Int.to_int (iy b - oy b)) in *.
  assert (Hmx : m_x = Int.to_int (ix b - ox b)) by reflexivity.
  assert (Hmy : m_y = Int.to_int (iy b - oy b)) by reflexivity.
  clearbody m_x m_y. unfold sized in Hr.
  split; [intros c Hin | intros Hn; split; [|split; intros c Hin]].
  2: { intros px py. unfold covers, fillRect. cbn [fx fy fw fh].
       clear Hmx Hmy. unwrap. lia. }
  all: (destruct (Z.gtb_spec m_x 0); [|destruct (Z.ltb_spec m_x 0)]);
    (destruct (Z.gtb_spec m_y 0); [|destruct (Z.ltb_spec m_y 0)]);
    cbn [app In] in Hin;
    repeat match goal with
           | H : _ \/ _ |- _ => destruct H
           | H : False |- _ => destruct H
           end;
    subst c; unfold covers, fillRect; cbn [fx fy fw fh]; intros;
    unwrap; try (clear Hmy; lia); try (clear Hmx; lia).
Qed.

Lemma scenario_typed g : typed (scenario_moved g) /\ sized (scenario_moved g).
Proof.
  rewrite scenario_moved_eq. unfold typed, sized, Int.is_int.
  cbn [ix iy ox oy radius]. lia.
Qed.

Lemma C9_erase_clear_of_draw_witness :
  (forall c, In c (erase (scenario_moved falling_draws)) ->
             disjoint c (mkFill 43 43 20 20 2016)) /\
  (no_overflow (scenario_moved falling_draws) ->
     (forall px py, covers (mkFill 43 43 20 20 2016) px py <->
                    new_box (scenario_moved falling_draws) px py) /\
     (forall c, In c (erase_horizontal (scenario_moved falling_draws)) ->
                abuts_x c (mkFill 43 43 20 20 2016)) /\
     (forall c, In c (erase_vertical (scenario_moved falling_draws)) ->
                abuts_y c (mkFill 43 43 20 20 2016))).
Proof.
  apply C9_erase_clear_of_draw.
  - apply scenario_typed.
  - apply scenario_typed.
  - rewrite scenario_draw. left. reflexivity.
Defined.

(** ** C10: the sizes passed to [fillRect] *)



(** * Further facts *)

(** Rounding moves a number by less than one step of any grid on which its
    neighbours are representable. *)
Lemma round_near t k :
  0 <= k -> Z.abs t <= (2 ^ 24 - 2) * 2 ^ k ->
  t - 2 ^ k < F32.round t <= t + 2 ^ k.
Proof.
  intros Hk Ht.
  assert (Hp : 0 < 2 ^ k) by (apply Z.pow_pos_nonneg; lia).
  set (p := 2 ^ k) in *.
  set (m := t / p).
  assert (Hm : m * p <= t < (m + 1) * p).
  { unfold m. pose proof (Z.div_mod t p ltac:(lia)).
    pose proof (Z.mod_pos_bound t p Hp). lia. }
  assert (Hmb : Z.abs m < 2 ^ 24 /\ Z.abs (m + 1) < 2 ^ 24).
  { change (2 ^ 24) with 16777216 in *. nia. }
  assert (H1 : m * p <= F32.round t).
  { pose proof (round_exact m k (proj1 Hmb) Hk) as E. fold p in E.
    rewrite <- E. apply round_mono. lia. }
  assert (H2 : F32.round t <= (m + 1) * p).
  { pose proof (round_exact (m + 1) k (proj2 Hmb) Hk) as E. fold p in E.
    rewrite <- E. apply round_mono. lia. }
  lia.
Qed.

(** On a number of pixels below 16, the step 2^-19; below 2048, 2^-12. *)
Lemma round_near_speed t :
  Z.abs t <= 16 * F32.one -> t - 2 ^ 130 < F32.round t <= t + 2 ^ 130.
Proof.
  intros H. apply round_near; [lia|].
  eapply Z.le_trans; [exact H|]. vm_compute. discriminate.
Qed.

Lemma round_near_position t :
  Z.abs t <= 2048 * F32.one -> t - 2 ^ 137 < F32.round t <= t + 2 ^ 137.
Proof.
  intros H. apply round_near; [lia|].
  eapply Z.le_trans; [exact H|]. vm_compute. discriminate.
Qed.

Lemma gravity_eq : gravity = 13421773 * 2 ^ 121.
Proof. reflexivity. Qed.

(** The arithmetic of one step in the air. *)
Lemma energy_drops v h v1 h1 :
  Z.abs v <= 9 * F32.one ->
  v + gravity - 2 ^ 130 < v1 <= v + gravity + 2 ^ 130 ->
  h + v1 - 2 ^ 137 < h1 ->
  v1 * v1 - 2 * gravity * h1 <= v * v - 2 * gravity * h.
Proof.
  intros Hv Hv1 Hh1.
  pose proof one_eq as Ho. pose proof gravity_eq as Hc.
  set (c := gravity) in *. set (o := F32.one) in *.
  set (d := v1 - v - c).
  assert (Hd : - 2 ^ 130 < d <= 2 ^ 130) by (unfold d; lia).
  assert (E : v1 * v1 - 2 * c * v1 = v * v + 2 * v * d + d * d - c * c)
    by (unfold d; ring).
  assert (Hvd : 2 * v * d <= 18 * o * 2 ^ 130) by nia.
  assert (Hdd : d * d <= 2 ^ 130 * 2 ^ 130) by nia.
  assert (Hch : - 2 * c * h1 <= - 2 * c * (h + v1 - 2 ^ 137)) by nia.
  assert (Hsl : 18 * o * 2 ^ 130 + 2 ^ 130 * 2 ^ 130 + 2 * c * 2 ^ 137 <= c * c).
  { rewrite Ho, Hc. vm_compute. discriminate. }
  lia.
Qed.

Lemma in_flight_bounds tft b :
  sized b -> 33 <= height tft <= 480 -> in_flight tft b ->
  - 250 * F32.one <= y b < (height tft - radius b + 1) * F32.one /\
  Z.abs (dy b) < 9 * F32.one.
Proof.
  unfold sized, in_flight, energy. intros Hs HH [Hy He].
  rewrite of_int_small in Hy by lia.
  pose proof one_eq as Ho. pose proof gravity_eq as Hc.
  set (c := gravity) in *. set (o := F32.one) in *.
  set (B1 := height tft - radius b + 1) in *.
  assert (Hcy : 2 * c * y b <= 950 * c * o) by nia.
  assert (H950 : 950 * c * o + 25 * o * o < 81 * o * o).
  { rewrite Ho, Hc. vm_compute. reflexivity. }
  assert (H500 : 25 * o * o <= 500 * c * o).
  { rewrite Ho, Hc. vm_compute. discriminate. }
  assert (Hsq : 0 <= dy b * dy b) by apply Z.square_nonneg.
  repeat split; try assumption.
  - destruct (Z_le_gt_dec (- 250 * o) (y b)); [assumption|exfalso]. nia.
  - destruct (Z_lt_le_dec (Z.abs (dy b)) (9 * o)); [assumption|exfalso].
    assert (81 * o * o <= dy b * dy b) by nia. lia.
Qed.

Lemma flight_kept tft b g :
  sized b -> 33 <= height tft <= 480 -> in_flight tft b ->
  in_flight tft (fst (move tft b g)).
Proof.
  intros Hs HH Hf.
  destruct (in_flight_bounds tft b Hs HH Hf) as [[Hylo Hyhi] Hv].
  unfold in_flight, energy. rewrite move_y, move_dy, move_radius.
  unfold sized in Hs.
  set (B := height tft - radius b) in *.
  assert (HB : 22 <= B <= 474) by (unfold B; lia).
  replace (height tft - radius b + 1) with (B + 1) in * by (unfold B; lia).
  rewrite of_int_small by lia.
  pose proof one_eq as Ho. pose proof gravity_eq as Hc.
  destruct Hf as [_ He]. unfold energy in He.
  unfold new_dy.
  destruct (hits_ground tft b) eqn:Hg.
  - (* ground *)
    set (k := fst (random (-45) (-20) (rng_after_wall tft b g))).
    assert (Hk : -45 <= k < -20) by (apply random_fst; lia).
    pose proof (tenths_range (- k) ltac:(lia)) as Hkr.
    pose proof (tenths_opp (- k) ltac:(lia)) as Hko.
    rewrite Z.opp_involutive in Hko.
    set (v1 := tenths k) in *.
    unfold hits_ground, F32.geb in Hg. fold B in Hg.
    rewrite (to_uint_id B), of_int_small in Hg by (unfold Int.is_uint; lia).
    destruct (Z.geb_spec (F32.add (y b) (dy b)) (B * F32.one)) as [Hs'|];
      [|discriminate Hg].
    assert (Hsum : (B - 1) * F32.one < y b + dy b).
    { destruct (Z_lt_le_dec ((B - 1) * F32.one) (y b + dy b)); [assumption|].
      assert (F32.add (y b) (dy b) <= (B - 1) * F32.one).
      { rewrite <- round_small by lia. apply round_mono. lia. }
      lia. }
    assert (Hup : F32.add (y b) v1 <= (B - 1) * F32.one).
    { rewrite <- round_small by lia. apply round_mono. lia. }
    assert (Hlo : 7 * F32.one <= F32.add (y b) v1).
    { rewrite <- (round_small 7) by lia. apply round_mono. lia. }
    split; [lia|].
    set (o := F32.one) in *. set (c := gravity) in *.
    assert (v1 * v1 <= 25 * o * o) by nia.
    assert (0 <= 2 * c * F32.add (y b) v1) by nia.
    lia.
  - (* air *)
    unfold hits_ground, F32.geb in Hg. fold B in Hg.
    rewrite (to_uint_id B), of_int_small in Hg by (unfold Int.is_uint; lia).
    destruct (Z.geb_spec (F32.add (y b) (dy b)) (B * F32.one)) as [|Hs'];
      [discriminate Hg|].
    assert (Hsum : y b + dy b < B * F32.one).
    { destruct (Z_lt_le_dec (y b + dy b) (B * F32.one)); [assumption|].
      assert (B * F32.one <= F32.add (y b) (dy b)).
      { rewrite <- round_small by lia. apply round_mono. lia. }
      lia. }
    pose proof (round_near_speed (dy b + gravity) ltac:(lia)) as Hv1.
    fold (F32.add (dy b) gravity) in Hv1.
    set (v1 := F32.add (dy b) gravity) in *.
    assert (E130 : 2 ^ 130 * 524288 = F32.one) by reflexivity.
    assert (E137 : 2 ^ 137 * 4096 = F32.one) by reflexivity.
    pose proof (round_near_position (y b + v1) ltac:(lia)) as Hy1.
    fold (F32.add (y b) v1) in Hy1.
    split; [lia|].
    eapply Z.le_trans; [|exact He].
    apply energy_drops; lia.
Qed.

(** truncation *)
Lemma trunc_spec a :
  (0 <= a -> 0 <= F32.trunc a /\
             F32.trunc a * F32.one <= a < (F32.trunc a + 1) * F32.one) /\
  (a <= 0 -> F32.trunc a <= 0 /\
             (F32.trunc a - 1) * F32.one < a <= F32.trunc a * F32.one).
Proof.
  unfold F32.trunc. pose proof one_pos as Ho.
  pose proof (Z.quot_rem' a F32.one) as E.
  split; intros Ha.
  - pose proof (Z.rem_bound_pos a F32.one Ha Ho). nia.
  - pose proof (Z.rem_bound_pos_neg a F32.one Ho Ha). nia.
Qed.

Lemma trunc_between a lo hi :
  lo * F32.one <= a <= hi * F32.one -> lo <= F32.trunc a <= hi.
Proof.
  intros H. pose proof one_pos as Ho. destruct (trunc_spec a) as [Hp Hn].
  destruct (Z_le_gt_dec 0 a) as [H0|H0].
  - specialize (Hp H0). nia.
  - specialize (Hn ltac:(lia)). nia.
Qed.

Lemma units_lt x y : x * F32.one < y * F32.one -> x < y.
Proof. pose proof one_pos. nia. Qed.

Lemma trunc_close a b n :
  0 <= n -> Z.abs (a - b) <= n * F32.one -> Z.abs (F32.trunc a - F32.trunc b) <= n.
Proof.
  intros Hn H. pose proof one_pos as Ho.
  destruct (trunc_spec a) as [Hap Han]. destruct (trunc_spec b) as [Hbp Hbn].
  set (ta := F32.trunc a) in *. set (tb := F32.trunc b) in *.
  assert (ta < tb + n + 1 /\ tb < ta + n + 1); [|lia].
  destruct (Z_le_gt_dec 0 a) as [Ha|Ha]; destruct (Z_le_gt_dec 0 b) as [Hb|Hb];
    [specialize (Hap Ha); specialize (Hbp Hb)
    |specialize (Hap Ha); specialize (Hbn ltac:(lia))
    |specialize (Han ltac:(lia)); specialize (Hbp Hb)
    |specialize (Han ltac:(lia)); specialize (Hbn ltac:(lia))];
    split; apply units_lt; lia.
Qed.

Lemma bounce_speed_bounds v : bounce_speed v -> 2 * F32.one <= Z.abs v <= 5 * F32.one.
Proof.
  intros (k & Hk & Hv). pose proof (tenths_range k ltac:(lia)). lia.
Qed.

Lemma new_dx_speed tft b g : bounce_speed (dx b) -> bounce_speed (new_dx tft b g).
Proof.
  intros Hv. unfold new_dx. destruct (hits_wall tft b); [|assumption].
  set (k := fst (random 20 45 g)).
  assert (Hk : 20 <= k < 45) by (apply random_fst; lia).
  rewrite mul_sign by lia. exists k. destruct (F32.gtb (dx b) 0); auto.
Qed.

(** The horizontal half of a step. *)
Lemma walls_kept tft b g :
  sized b -> 33 <= width tft <= 480 ->
  bounce_speed (dx b) -> within_walls tft b ->
  within_walls tft (fst (move tft b g)).
Proof.
  intros Hs HW Hv [Hlo Hhi]. unfold sized in Hs.
  pose proof (bounce_speed_bounds _ Hv) as Hvb.
  pose proof (bounce_speed_bounds _ (new_dx_speed tft b g Hv)) as Hnb.
  unfold within_walls. rewrite move_x, move_radius.
  set (r := radius b) in *. set (W := width tft) in *.
  rewrite !of_int_small in * by lia.
  pose proof one_eq as Ho.
  assert (Hin : forall z, r <= z <= W - r ->
                  (x b + new_dx tft b g <= z * F32.one ->
                   F32.add (x b) (new_dx tft b g) <= z * F32.one) /\
                  (z * F32.one <= x b + new_dx tft b g ->
                   z * F32.one <= F32.add (x b) (new_dx tft b g))).
  { intros z Hz. split; intros H; rewrite <- (round_small z) by lia;
      apply round_mono; exact H. }
  unfold new_dx in *. unfold hits_wall, reaches_left, reaches_right in *.
  fold r W in Hnb, Hin |- *.
  rewrite (to_uint_id (W - r)), !of_int_small in * by (unfold Int.is_uint; lia).
  set (s := F32.add (x b) (dx b)) in *.
  unfold F32.leb, F32.geb in *.
  destruct (Z.leb_spec s (r * F32.one)) as [Hl|Hl]; cbn [orb] in *.
  - (* left bound reached: the ball was moving left, within 6 of the wall *)
    assert (x b + dx b < (r + 1) * F32.one).
    { destruct (Z_lt_le_dec (x b + dx b) ((r + 1) * F32.one)); [assumption|].
      assert ((r + 1) * F32.one <= s)
        by (rewrite <- (round_small (r + 1)) by lia; apply round_mono; lia).
      lia. }
    set (v := F32.mul _ _) in *.
    assert (Hsign : 0 < v).
    { unfold v. set (k := fst (random 20 45 g)).
      assert (Hk : 20 <= k < 45) by (apply random_fst; lia).
      pose proof (tenths_range k ltac:(lia)).
      rewrite mul_sign by lia. unfold F32.gtb.
      destruct (Z.gtb_spec (dx b) 0); lia. }
    split; [apply (Hin r)|apply (Hin (W - r))]; lia.
  - destruct (Z.geb_spec s ((W - r) * F32.one)) as [Hg|Hg].
    + assert ((W - r - 1) * F32.one < x b + dx b).
      { destruct (Z_lt_le_dec ((W - r - 1) * F32.one) (x b + dx b)); [assumption|].
        assert (s <= (W - r - 1) * F32.one)
          by (rewrite <- (round_small (W - r - 1)) by lia; apply round_mono; lia).
        lia. }
      set (v := F32.mul _ _) in *.
      assert (Hsign : v < 0).
      { unfold v. set (k := fst (random 20 45 g)).
        assert (Hk : 20 <= k < 45) by (apply random_fst; lia).
        pose proof (tenths_range k ltac:(lia)).
        rewrite mul_sign by lia. unfold F32.gtb.
        destruct (Z.gtb_spec (dx b) 0); lia. }
      split; [apply (Hin r)|apply (Hin (W - r))]; lia.
    + fold s. lia.
Qed.

(** One step keeps a ball in play, and leaves its cell at its truncated
    position. *)
Lemma in_play_kept tft b g :
  panel_ok tft -> in_play tft b ->
  in_play tft (fst (move tft b g)) /\ placed (fst (move tft b g)).
Proof.
  intros [HW HH] (Hs & Hv & Hw & Hf).
  pose proof (walls_kept tft b g Hs HW Hv Hw) as Hw'.
  pose proof (flight_kept tft b g Hs HH Hf) as Hf'.
  pose proof (move_sized tft b g Hs) as Hs'.
  assert (Hv' : bounce_speed (dx (fst (move tft b g))))
    by (rewrite move_dx; apply new_dx_speed; assumption).
  split; [unfold in_play; tauto|].
  destruct (in_flight_bounds _ _ Hs' HH Hf') as [Hy _].
  destruct (move_cells tft b g) as (Eix & Eiy & _).
  set (b' := fst (move tft b g)) in *.
  unfold within_walls in Hw'. unfold sized in Hs'.
  rewrite !of_int_small in Hw' by lia.
  pose proof (trunc_between (x b') (radius b') (width tft - radius b') Hw') as Htx.
  pose proof (trunc_between (y b') (-250) (height tft - radius b' + 1)
                ltac:(lia)) as Hty.
  unfold placed. rewrite Eix, Eiy.
  split; apply to_int_id; unfold Int.is_int; lia.
Qed.

Lemma placed_cells tft b :
  panel_ok tft -> in_play tft b -> placed b ->
  radius b <= ix b <= width tft - radius b /\
  -250 <= iy b <= height tft - radius b.
Proof.
  intros [HW HH] (Hs & Hv & Hw & Hf) [Ex Ey].
  destruct (in_flight_bounds _ _ Hs HH Hf) as [Hy _].
  unfold within_walls in Hw. unfold sized in Hs.
  rewrite !of_int_small in Hw by lia.
  pose proof (trunc_between (x b) (radius b) (width tft - radius b) Hw).
  assert (Hyb : F32.trunc (y b) <= height tft - radius b)
    by (apply trunc_below; lia).
  pose proof (trunc_between (y b) (-250) (height tft - radius b + 1)
                ltac:(lia)).
  rewrite Ex, Ey. lia.
Qed.

(** A step from a placed ball in play is short: at most 6 columns and 10
    rows, and none of the [int] expressions of [erase] and [draw]
    overflows. *)
Lemma step_short tft b g :
  panel_ok tft -> in_play tft b -> placed b ->
  let b' := fst (move tft b g) in
  Z.abs (ix b' - ox b') <= 6 /\ Z.abs (iy b' - oy b') <= 10 /\
  no_overflow b'.
Proof.
  intros Hp Hb Hpl b'.
  destruct (in_play_kept tft b g Hp Hb) as [Hb' Hpl']. fold b' in Hb', Hpl'.
  pose proof (placed_cells tft b Hp Hb Hpl) as [Hcx Hcy].
  pose proof (placed_cells tft b' Hp Hb' Hpl') as [Hcx' Hcy'].
  destruct (move_cells tft b g) as (_ & _ & Eox & Eoy). fold b' in Eox, Eoy.
  destruct Hp as [HW HH].
  destruct Hb as (Hs & Hv & Hw & Hf). destruct Hb' as (Hs' & Hv' & Hw' & Hf').
  destruct Hpl as [Ex Ey]. destruct Hpl' as [Ex' Ey'].
  assert (Hr : radius b' = radius b) by apply move_radius.
  unfold sized in Hs, Hs'.
  assert (Hmx : Z.abs (ix b' - ox b') <= 6).
  { rewrite Eox, Ex, Ex'. apply trunc_close; [lia|].
    unfold b'. rewrite move_x.
    pose proof (bounce_speed_bounds _ (new_dx_speed tft b g Hv)) as Hn.
    unfold within_walls in Hw. rewrite !of_int_small in Hw by lia.
    assert (E137 : 2 ^ 137 * 4096 = F32.one) by reflexivity.
    pose proof (round_near_position (x b + new_dx tft b g) ltac:(lia)) as Hx1.
    fold (F32.add (x b) (new_dx tft b g)) in Hx1. lia. }
  assert (Hmy : Z.abs (iy b' - oy b') <= 10).
  { rewrite Eoy, Ey, Ey'. apply trunc_close; [lia|].
    destruct (in_flight_bounds _ _ Hs HH Hf) as [Hy _].
    destruct (in_flight_bounds _ _ Hs' HH Hf') as [_ Hdy'].
    unfold b' in Hdy' |- *. rewrite move_dy in Hdy'. rewrite move_y.
    assert (E137 : 2 ^ 137 * 4096 = F32.one) by reflexivity.
    pose proof (round_near_position (y b + new_dy tft b g) ltac:(lia)) as Hy1.
    fold (F32.add (y b) (new_dy tft b g)) in Hy1. lia. }
  split; [exact Hmx|split; [exact Hmy|]].
  unfold no_overflow, Int.is_int. rewrite Eox, Eoy in *. lia.
Qed.

Lemma coversb_covers c px py : coversb c px py = true <-> covers c px py.
Proof.
  unfold coversb, covers. rewrite !andb_true_iff, !Z.leb_le, !Z.ltb_lt. tauto.
Qed.

Lemma painted_nil px py : painted [] px py <-> False.
Proof. split; [intros (c & [] & _)|tauto]. Qed.

Lemma painted_cons c cs px py :
  painted (c :: cs) px py <-> covers c px py \/ painted cs px py.
Proof.
  unfold painted. split.
  - intros (c' & [<-|Hin] & Hc); [left|right; exists c']; auto.
  - intros [Hc|(c' & Hin & Hc)]; [exists c|exists c']; cbn [In]; auto.
Qed.

Lemma painted_app cs ds px py :
  painted (cs ++ ds) px py <-> painted cs px py \/ painted ds px py.
Proof.
  unfold painted. split.
  - intros (c & Hin & Hc). apply in_app_or in Hin. destruct Hin; [left|right]; eauto.
  - intros [(c & Hin & Hc)|(c & Hin & Hc)]; exists c; split; auto using in_or_app.
Qed.

Lemma painted_flat_map {A} (f : A -> list FillRect) l px py :
  painted (flat_map f l) px py <-> exists a, In a l /\ painted (f a) px py.
Proof.
  unfold painted. split.
  - intros (c & Hin & Hc). apply in_flat_map in Hin. destruct Hin as (a & Ha & Hca).
    exists a. split; [assumption|]. exists c. auto.
  - intros (a & Ha & c & Hca & Hc). exists c. split; [|assumption].
    apply in_flat_map. exists a. auto.
Qed.

Lemma painted_dec cs px py : {painted cs px py} + {~ painted cs px py}.
Proof.
  induction cs as [|c cs IH].
  - right. intros H. now apply painted_nil in H.
  - destruct (coversb c px py) eqn:E.
    + left. apply painted_cons. left. now apply coversb_covers.
    + destruct IH as [IH|IH].
      * left. apply painted_cons. auto.
      * right. rewrite painted_cons. intros [H|H]; [|auto].
        apply coversb_covers in H. congruence.
Qed.

Lemma render_app tft s cs ds :
  render tft s (cs ++ ds) = render tft (render tft s cs) ds.
Proof. unfold render. apply fold_left_app. Qed.

(** Off the panel nothing changes. *)
Lemma render_off_panel tft cs : forall s px py,
  on_panel tft px py = false -> render tft s cs px py = s px py.
Proof.
  induction cs as [|c cs IH]; intros s px py H; [reflexivity|].
  cbn [render fold_left]. fold (render tft (fill tft s c) cs).
  rewrite IH by assumption. unfold fill. now rewrite H.
Qed.

(** A pixel no call covers keeps its colour. *)
Lemma render_unpainted tft cs : forall s px py,
  ~ painted cs px py -> render tft s cs px py = s px py.
Proof.
  induction cs as [|c cs IH]; intros s px py H; [reflexivity|].
  rewrite painted_cons in H.
  cbn [render fold_left]. fold (render tft (fill tft s c) cs).
  rewrite IH by tauto. unfold fill.
  destruct (coversb c px py) eqn:E.
  - exfalso. apply H. left. now apply coversb_covers.
  - now rewrite andb_false_r.
Qed.

(** Calls of one colour leave that colour where they paint, and where it
    was already. *)
Lemma render_one_colour tft col cs : forall s px py,
  (forall c, In c cs -> fcolor c = col) ->
  s px py = col \/ (on_panel tft px py = true /\ painted cs px py) ->
  render tft s cs px py = col.
Proof.
  induction cs as [|c cs IH]; intros s px py Hcol H.
  - destruct H as [H|[_ H]]; [exact H|]. now apply painted_nil in H.
  - cbn [render fold_left]. fold (render tft (fill tft s c) cs).
    apply IH; [intros; apply Hcol; now right|].
    unfold fill.
    destruct (on_panel tft px py) eqn:Ep; cbn [andb].
    + destruct (coversb c px py) eqn:Ec.
      * left. apply Hcol. now left.
      * destruct H as [H|[_ H]]; [now left|right]. split; [reflexivity|].
        apply painted_cons in H. destruct H as [H|H]; [|assumption].
        apply coversb_covers in H. congruence.
    + destruct H as [H|[H _]]; [now left|discriminate H].
Qed.

(** What lay under a pixel does not matter once a call paints it. *)
Lemma render_agree tft cs : forall s1 s2 px py,
  s1 px py = s2 px py \/ (on_panel tft px py = true /\ painted cs px py) ->
  render tft s1 cs px py = render tft s2 cs px py.
Proof.
  induction cs as [|c cs IH]; intros s1 s2 px py H.
  - destruct H as [H|[_ H]]; [exact H|]. now apply painted_nil in H.
  - cbn [render fold_left].
    fold (render tft (fill tft s1 c) cs). fold (render tft (fill tft s2 c) cs).
    apply IH. unfold fill.
    destruct (on_panel tft px py) eqn:Ep; cbn [andb].
    + destruct (coversb c px py) eqn:Ec; [now left|].
      destruct H as [H|[_ H]]; [now left|right]. split; [reflexivity|].
      apply painted_cons in H. destruct H as [H|H]; [|assumption].
      apply coversb_covers in H. congruence.
    + destruct H as [H|[H _]]; [now left|discriminate H].
Qed.

Lemma erase_background b c : In c (erase b) -> fcolor c = BACKGROUND.
Proof.
  unfold erase, erase_horizontal, erase_vertical. intros Hin.
  destruct (mx b >? 0); [|destruct (mx b <? 0)];
  (destruct (my b >? 0); [|destruct (my b <? 0)]);
  cbn [app In] in Hin;
  repeat match goal with
         | H : _ \/ _ |- _ => destruct H
         | H : False |- _ => destruct H
         end; subst c; reflexivity.
Qed.

(** [draw] paints the new box when the box's corner fits an [int]. *)
Lemma draw_paints_new_box b px py :
  sized b ->
  Int.is_int (ix b - radius b) -> Int.is_int (iy b - radius b) ->
  (painted (draw b) px py <-> new_box b px py).
Proof.
  unfold sized, draw, new_box, box. intros Hs Hx Hy.
  rewrite painted_cons, painted_nil.
  unfold covers, fillRect. cbn [fx fy fw fh]. unwrap. lia.
Qed.

(** [erase] paints what the box vacated, when the movement is no longer
    than the box and nothing overflows. *)
Lemma erase_paints_vacated b px py :
  sized b -> no_overflow b ->
  Z.abs (ix b - ox b) <= 2 * radius b ->
  Z.abs (iy b - oy b) <= 2 * radius b ->
  (painted (erase b) px py <-> old_box b px py /\ ~ new_box b px py).
Proof.
  intros Hs Hn Hmx Hmy. unfold erase.
  rewrite erase_horizontal_exact, erase_vertical_exact by assumption.
  unfold sized in Hs. unfold old_box, new_box, box.
  destruct (Z.gtb_spec (ix b - ox b) 0);
    [|destruct (Z.ltb_spec (ix b - ox b) 0)];
  (destruct (Z.gtb_spec (iy b - oy b) 0);
    [|destruct (Z.ltb_spec (iy b - oy b) 0)]);
  cbn [app]; rewrite ?painted_cons, ?painted_nil;
  unfold covers; cbn [fx fy fw fh]; lia.
Qed.

(** What an executed [loop] leaves. *)
Lemma loop_executed ms w :
  5 < Int.to_ulong (ms - lastms w) ->
  let w' := loop ms w in
  tft w' = tft w /\ lastms w' = ms /\
  Forall2 (moved (tft w)) (balls w) (balls w') /\
  fills (trace w') = fills (trace w) ++ flat_map erase (balls w')
                                       ++ flat_map draw (balls w') /\
  calls (trace w') = calls (trace w)
                     ++ map (pair Move) (seq 0 (length (balls w)))
                     ++ map (pair Erase) (seq 0 (length (balls w)))
                     ++ map (pair Draw) (seq 0 (length (balls w))).
Proof.
  intros H. unfold loop.
  destruct (Z.leb_spec (Int.to_ulong (ms - lastms w)) 5); [lia|].
  pose proof (move_all_trace (tft w) (balls w) 0%nat (rng w)) as Hm.
  destruct (move_all (tft w) 0 (balls w) (rng w)) as [[bs ev] g].
  cbn [fst snd] in Hm. destruct Hm as (Hf & Hc & Hfl).
  cbn [tft lastms balls trace].
  assert (Hlen : length bs = length (balls w))
    by (symmetry; eapply Forall2_length; eauto).
  destruct (erase_all_trace bs 0) as [Hec Hef].
  destruct (draw_all_trace bs 0) as [Hdc Hdf].
  rewrite !calls_app, !fills_app, Hc, Hfl, Hec, Hef, Hdc, Hdf, Hlen.
  repeat split; auto.
Qed.

(** The first tick on a blank screen, whatever the cells hold. *)
Lemma first_tick_redraws ms w :
  5 < Int.to_ulong (ms - lastms w) ->
  fills (trace w) = [] ->
  forall px py,
    screen_after (tft w) (trace (loop ms w)) px py
    = full_redraw (tft w) (balls (loop ms w)) px py.
Proof.
  intros H Ht px py.
  destruct (loop_executed ms w H) as (_ & _ & _ & Hf & _).
  unfold screen_after, full_redraw. rewrite Hf, Ht. cbn [app].
  rewrite render_app. apply render_agree. left.
  apply render_one_colour.
  - intros c Hc. apply in_flat_map in Hc. destruct Hc as (b & _ & Hc).
    now apply erase_background in Hc.
  - left. reflexivity.
Qed.

(** A later tick: the screen showed the balls, and shows the moved balls. *)
Lemma later_tick_redraws ms w :
  panel_ok (tft w) -> Forall (steady (tft w)) (balls w) ->
  5 < Int.to_ulong (ms - lastms w) ->
  (forall px py, screen_after (tft w) (trace w) px py
                 = full_redraw (tft w) (balls w) px py) ->
  forall px py,
    screen_after (tft w) (trace (loop ms w)) px py
    = full_redraw (tft w) (balls (loop ms w)) px py.
Proof.
  intros Hp Hst H Hscr px py.
  destruct (loop_executed ms w H) as (_ & _ & Hmv & Hf & _).
  set (w' := loop ms w) in *.
  unfold screen_after, full_redraw in *. rewrite Hf, !render_app.
  set (scr := render (tft w) blank (fills (trace w))) in *.
  set (E := flat_map erase (balls w')). set (D := flat_map draw (balls w')).
  apply render_agree.
  destruct (on_panel (tft w) px py) eqn:Ep;
    [|left; rewrite render_off_panel, Hscr by assumption;
      apply render_off_panel; assumption].
  destruct (painted_dec D px py) as [HD|HD]; [right; auto|left].
  assert (HEcol : forall c, In c E -> fcolor c = BACKGROUND).
  { intros c Hc. apply in_flat_map in Hc. destruct Hc as (b & _ & Hc).
    now apply erase_background in Hc. }
  destruct (painted_dec E px py) as [HE|HE].
  { apply render_one_colour; auto. }
  rewrite render_unpainted by assumption. rewrite Hscr.
  destruct (painted_dec (flat_map draw (balls w)) px py) as [H0|H0];
    [exfalso|apply render_unpainted; assumption].
  (* the pixel was in a ball's box and is in no ball's box now: that
     ball's erase painted it *)
  apply painted_flat_map in H0. destruct H0 as (b & Hb & Hpb).
  apply HE. apply painted_flat_map.
  assert (Hex : exists b', In b' (balls w') /\ moved (tft w) b b').
  { clear - Hmv Hb. induction Hmv as [|a a' l l' Ha _ IH]; [destruct Hb|].
    destruct Hb as [->|Hb]; [exists a'; split; [now left|assumption]|].
    destruct (IH Hb) as (b' & Hin & Hm). exists b'. split; [now right|assumption]. }
  destruct Hex as (b' & Hb' & g & ->).
  eexists. split; [exact Hb'|].
  rewrite Forall_forall in Hst. destruct (Hst b Hb) as [Hplay Hpl].
  destruct (step_short (tft w) b g Hp Hplay Hpl) as (Hmx & Hmy & Hno).
  destruct (in_play_kept (tft w) b g Hp Hplay) as [Hplay' Hpl'].
  pose proof (placed_cells (tft w) b Hp Hplay Hpl) as [Hcx Hcy].
  destruct (move_cells (tft w) b g) as (_ & _ & Eox & Eoy).
  pose proof (move_radius (tft w) b g) as Er.
  set (b' := fst (move (tft w) b g)) in *.
  destruct Hplay as (Hs & _). destruct Hplay' as (Hs' & _).
  pose proof Hs as Hs0. pose proof Hs' as Hs0'. unfold sized in Hs0, Hs0'.
  destruct Hp as [HW HH].
  apply erase_paints_vacated; try assumption; try lia.
  split.
  - (* the old box of the moved ball is the box the ball was drawn in *)
    apply draw_paints_new_box in Hpb;
      [|assumption|unfold Int.is_int; lia|unfold Int.is_int; lia].
    unfold old_box. rewrite Eox, Eoy, Er. exact Hpb.
  - intros Hnew. apply HD. apply painted_flat_map. exists b'.
    split; [exact Hb'|].
    unfold no_overflow in Hno.
    apply draw_paints_new_box; tauto.
Qed.

Lemma Ball_in_play tft mem g :
  panel_ok tft -> in_play tft (fst (Ball.Ball tft mem g)).
Proof.
  intros [HW HH].
  pose proof (Ball_sized tft mem g) as Hs.
  destruct (Ball_within_walls tft mem g ltac:(lia)) as [Hw Hv].
  split; [assumption|split; [assumption|split; [assumption|]]].
  revert Hs. unfold Ball.Ball, in_flight, energy, sized, bind, ret.
  pose proof (random_fst 6 12 g ltac:(lia)) as Hr.
  destruct (random 6 12 g) as [r g1]. cbn [fst] in Hr.
  destruct (random BLACK WHITE g1) as [c g2].
  rewrite (to_uint_id r) by (unfold Int.is_uint; lia).
  destruct (random r _ g2) as [px g3].
  rewrite (to_uint_id (height tft - r)) by (unfold Int.is_uint; lia).
  pose proof (random_fst r (height tft - r) g3 ltac:(lia)) as Hy.
  destruct (random r (height tft - r) g3) as [py g4]. cbn [fst] in Hy.
  destruct (random 20 45 g4) as [kx g5].
  pose proof (random_fst 20 45 g5 ltac:(lia)) as Hk.
  destruct (random 20 45 g5) as [ky g6]. cbn [fst] in Hk.
  cbn [fst y dy radius]. intros _.
  pose proof (tenths_range ky ltac:(lia)) as Hkr.
  rewrite !of_int_small by lia.
  pose proof one_pos as Ho. destruct gravity_small as [Hc _].
  split; [nia|].
  set (v := tenths ky) in *. set (o := F32.one) in *.
  assert (v * v <= 25 * o * o) by nia.
  assert (0 <= 2 * gravity * (py * o))
    by (apply Z.mul_nonneg_nonneg; [lia|apply Z.mul_nonneg_nonneg; lia]).
  lia.
Qed.

Lemma create_balls_in_play tft mems : forall g,
  panel_ok tft -> Forall (in_play tft) (fst (create_balls tft mems g)).
Proof.
  induction mems as [|mem mems IH]; intros g Hp; [constructor|].
  cbn [create_balls]. unfold bind.
  pose proof (Ball_in_play tft mem g Hp) as Hb.
  destruct (Ball.Ball tft mem g) as [b g1]. cbn [fst] in Hb.
  specialize (IH g1 Hp).
  destruct (create_balls tft mems g1) as [bs g2]. cbn [fst ret] in *.
  constructor; assumption.
Qed.

Lemma setup_spec d mem ms g :
  let w := setup d mem ms g in
  tft w = d /\ lastms w = ms /\ trace w = [] /\
  length (balls w) = BALLCOUNT /\
  (panel_ok d -> Forall (in_play d) (balls w)).
Proof.
  unfold setup.
  pose proof (create_balls_spec d (map mem (seq 0 BALLCOUNT)) g) as H.
  pose proof (create_balls_in_play d (map mem (seq 0 BALLCOUNT)) g) as Hi.
  destruct (create_balls d (map mem (seq 0 BALLCOUNT)) g) as [bs g'].
  cbn [fst tft lastms trace balls] in *. destruct H as (Hl & _).
  repeat split; auto.
Qed.

Lemma moved_all_in_play d bs bs' :
  panel_ok d -> Forall2 (moved d) bs bs' -> Forall (in_play d) bs ->
  Forall (in_play d) bs' /\ Forall placed bs'.
Proof.
  intros Hp H2. induction H2 as [|b b' bs bs' [g ->] _ IH]; intros HP;
    [split; constructor|].
  inversion HP; subst. destruct (IH H2) as [IH1 IH2].
  destruct (in_play_kept d b g Hp H1).
  split; constructor; assumption.
Qed.

Lemma loop_sound d ms w : panel_ok d -> sound d w -> sound d (loop ms w).
Proof.
  intros Hp (Ht & Hi & Hsh).
  destruct (Z_le_gt_dec (Int.to_ulong (ms - lastms w)) 5) as [Hg|Hg].
  { rewrite loop_gated by assumption. repeat split; assumption. }
  assert (Hx : 5 < Int.to_ulong (ms - lastms w)) by lia.
  destruct (loop_executed ms w Hx) as (Ht' & _ & Hmv & _).
  rewrite Ht in Hmv.
  destruct (moved_all_in_play d _ _ Hp Hmv Hi) as [Hi' Hpl'].
  split; [congruence|split; [assumption|]].
  right. split; [assumption|]. rewrite Ht'.
  destruct Hsh as [Hblank|[Hpl Hscr]].
  - apply first_tick_redraws; assumption.
  - apply later_tick_redraws; try assumption; rewrite Ht; try assumption.
    apply Forall_forall. intros b Hb. rewrite Forall_forall in Hi, Hpl.
    split; auto.
Qed.

Lemma run_sound d times : forall w,
  panel_ok d -> sound d w -> sound d (run times w).
Proof.
  induction times as [|ms times IH]; intros w Hp Hs; [exact Hs|].
  cbn [run fold_left]. apply IH; [assumption|]. now apply loop_sound.
Qed.

(** ** The generator *)

Lemma random_snd lo hi g :
  lo < hi -> forall i, snd (random lo hi g) i = skip 1 g i.
Proof.
  intros H i. unfold random. destruct (Z.geb_spec lo hi); [lia|]. reflexivity.
Qed.

Lemma Ball_snd tft mem g :
  23 <= width tft <= 65535 -> 23 <= height tft <= 65535 ->
  forall i, snd (Ball.Ball tft mem g) i = skip 6 g i.
Proof.
  intros HW HH. unfold Ball.Ball, bind, ret.
  pose proof (random_fst 6 12 g ltac:(lia)) as Hr.
  pose proof (random_snd 6 12 g ltac:(lia)) as G1.
  destruct (random 6 12 g) as [r g1]. cbn [fst snd] in Hr, G1.
  pose proof (random_snd BLACK WHITE g1 ltac:(unfold BLACK, WHITE; lia)) as G2.
  destruct (random BLACK WHITE g1) as [c g2]. cbn [fst snd] in G2.
  rewrite (to_uint_id r) by (unfold Int.is_uint; lia).
  rewrite (to_uint_id (width tft - r)), (to_uint_id (height tft - r))
    by (unfold Int.is_uint; lia).
  pose proof (random_snd r (width tft - r) g2 ltac:(lia)) as G3.
  destruct (random r (width tft - r) g2) as [px g3]. cbn [fst snd] in G3.
  pose proof (random_snd r (height tft - r) g3 ltac:(lia)) as G4.
  destruct (random r (height tft - r) g3) as [py g4]. cbn [fst snd] in G4.
  pose proof (random_snd 20 45 g4 ltac:(lia)) as G5.
  destruct (random 20 45 g4) as [kx g5]. cbn [fst snd] in G5.
  pose proof (random_snd 20 45 g5 ltac:(lia)) as G6.
  destruct (random 20 45 g5) as [ky g6]. cbn [fst snd] in G6.
  cbn [snd].
  intros i. unfold skip in *. rewrite G6, G5, G4, G3, G2, G1. reflexivity.
Qed.

Lemma create_balls_snd tft mems : forall g,
  23 <= width tft <= 65535 -> 23 <= height tft <= 65535 ->
  Forall2 same_cells mems (fst (create_balls tft mems g)) /\
  forall i, snd (create_balls tft mems g) i = skip (6 * length mems) g i.
Proof.
  induction mems as [|mem mems IH]; intros g HW HH.
  - cbn. split; [constructor|reflexivity].
  - cbn [create_balls]. unfold bind.
    pose proof (Ball_cells tft mem g) as Hc.
    pose proof (Ball_snd tft mem g HW HH) as Hg.
    destruct (Ball.Ball tft mem g) as [b g1]. cbn [fst snd] in Hc, Hg.
    destruct (IH g1 HW HH) as [Hcs Hgs].
    destruct (create_balls tft mems g1) as [bs g2]. cbn [fst snd ret] in *.
    split; [constructor; assumption|].
    intros i. rewrite Hgs. unfold skip. rewrite Hg. unfold skip.
    f_equal. cbn [length]. lia.
Qed.

Lemma run_length times : forall w,
  length (balls (run times w)) = length (balls w).
Proof.
  induction times as [|ms times IH]; intros w; [reflexivity|].
  cbn [run fold_left]. fold (run times (loop ms w)).
  rewrite IH. apply loop_balls.
Qed.

Lemma setup_sound d mem ms g :
  panel_ok d -> sound d (setup d mem ms g).
Proof.
  intros Hp. pose proof (setup_spec d mem ms g) as H. cbv zeta in H.
  destruct H as (Ht & _ & Htr & _ & Hb).
  split; [exact Ht|]. split; [auto|].
  left. rewrite Htr. reflexivity.
Qed.

Lemma in_box_is_int tft b :
  panel_ok tft -> in_play tft b -> placed b ->
  Int.is_int (ix b - radius b) /\ Int.is_int (iy b - radius b).
Proof.
  intros Hp Hi Hpl.
  pose proof (placed_cells tft b Hp Hi Hpl) as Hc.
  destruct Hi as (Hs & _). unfold sized in Hs. destruct Hp as [HW HH].
  unfold Int.is_int. lia.
Qed.

Lemma full_redraw_background tft bs px py :
  (forall b, In b bs -> ~ painted (draw b) px py) ->
  full_redraw tft bs px py = BACKGROUND.
Proof.
  intros H. unfold full_redraw.
  rewrite render_unpainted; [reflexivity|].
  rewrite painted_flat_map. intros (b & Hin & Hb). exact (H b Hin Hb).
Qed.

Lemma full_redraw_front tft behind b front px py :
  on_panel tft px py = true ->
  painted (draw b) px py ->
  (forall c, In c front -> ~ painted (draw c) px py) ->
  full_redraw tft (behind ++ b :: front) px py = Int.to_uint (color b).
Proof.
  intros Hon Hb Hf. unfold full_redraw.
  rewrite flat_map_app. cbn [flat_map].
  rewrite !render_app.
  rewrite render_unpainted.
  - apply render_one_colour.
    + intros c [<-|[]]. reflexivity.
    + right. split; assumption.
  - rewrite painted_flat_map. intros (c & Hin & Hc). exact (Hf c Hin Hc).
Qed.

Lemma ground_speed_checks_all :
  forallb ground_speed_checks (map (fun n => Z.of_nat n - 45) (seq 0 25)) = true.
Proof. vm_compute. reflexivity. Qed.

Lemma ground_speed k :
  -45 <= k < -20 -> - 9 * 2 ^ 148 <= tenths k <= - 2 * F32.one.
Proof.
  intros Hk. pose proof ground_speed_checks_all as H.
  rewrite forallb_forall in H.
  assert (Hin : In k (map (fun n => Z.of_nat n - 45) (seq 0 25))).
  { rewrite in_map_iff. exists (Z.to_nat (k + 45)). split; [lia|].
    apply in_seq. lia. }
  apply H in Hin. unfold ground_speed_checks in Hin.
  rewrite andb_true_iff in Hin. lia.
Qed.

Lemma move_snd tft b g i :
  snd (move tft b g) i
  = skip (b2n (hits_wall tft b) + b2n (hits_ground tft b)) g i.
Proof.
  unfold move, bind, ret.
  destruct (hits_wall tft b); destruct (hits_ground tft b); reflexivity.
Qed.

Lemma move_all_snd tft bs : forall n g i,
  snd (move_all tft n bs g) i = skip (bounces tft bs) g i.
Proof.
  induction bs as [|b bs IH]; intros n g i; [reflexivity|].
  cbn [move_all bounces]. unfold bind.
  pose proof (move_snd tft b g) as Hb.
  destruct (move tft b g) as [b1 g1]. cbn [snd] in Hb.
  pose proof (IH (S n) g1 i) as Hr.
  destruct (move_all tft (S n) bs g1) as [r g2]. cbn [snd ret] in *.
  rewrite Hr. unfold skip in *. rewrite Hb. f_equal. lia.
Qed.

Lemma length_flat_map_bounds {A} (f : A -> list FillRect) lo hi l :
  (forall a, In a l -> (lo <= length (f a) <= hi)%nat) ->
  (lo * length l <= length (flat_map f l) <= hi * length l)%nat.
Proof.
  induction l as [|a l IH]; intros H; [cbn; lia|].
  cbn [flat_map length]. rewrite length_app.
  pose proof (H a (or_introl eq_refl)).
  assert (forall a0, In a0 l -> (lo <= length (f a0) <= hi)%nat)
    by (intros; apply H; now right).
  specialize (IH H1). lia.
Qed.

Lemma erase_length b : (length (erase b) <= 2)%nat.
Proof.
  unfold erase, erase_horizontal, erase_vertical.
  destruct (mx b >? 0); destruct (mx b <? 0);
  destruct (my b >? 0); destruct (my b <? 0); cbn; lia.
Qed.

(** * Further properties of the sketch *)

(** X1.  [Ball::Ball] on a panel at least 23 pixels each way: the radius is
    in [6, 12), the colour in [0, 0xFFFF) (never WHITE), the position a
    whole pixel at least a radius from the left and top edges and more than
    a radius from the right and bottom edges, both speeds are some
    [k / 10.0] with k in [20, 45), hence between 2 and 5 pixels per step
    and positive (right and down), and the constructor takes exactly six
    numbers from the generator. *)
Theorem X1_constructor_ranges tft mem g :
  23 <= width tft <= 65535 -> 23 <= height tft <= 65535 ->
  let b := fst (Ball.Ball tft mem g) in
  6 <= radius b < 12 /\ 0 <= color b < 65535 /\
  (exists px, radius b <= px < width tft - radius b /\ x b = F32.of_int px) /\
  (exists py, radius b <= py < height tft - radius b /\ y b = F32.of_int py) /\
  (exists k, 20 <= k < 45 /\ dx b = tenths k) /\
  (exists k, 20 <= k < 45 /\ dy b = tenths k) /\
  2 * F32.one <= dx b <= 5 * F32.one /\ 2 * F32.one <= dy b <= 5 * F32.one /\
  forall i, snd (Ball.Ball tft mem g) i = skip 6 g i.
Proof.
  intros HW HH. unfold Ball.Ball, bind, ret.
  pose proof (random_fst 6 12 g ltac:(lia)) as Hr.
  pose proof (random_snd 6 12 g ltac:(lia)) as G1.
  destruct (random 6 12 g) as [r g1]. cbn [fst snd] in Hr, G1.
  pose proof (random_fst BLACK WHITE g1 ltac:(unfold BLACK, WHITE; lia)) as Hc.
  pose proof (random_snd BLACK WHITE g1 ltac:(unfold BLACK, WHITE; lia)) as G2.
  destruct (random BLACK WHITE g1) as [c g2]. cbn [fst snd] in Hc, G2.
  unfold BLACK, WHITE in Hc.
  rewrite (to_uint_id r), (to_uint_id c) by (unfold Int.is_uint; lia).
  rewrite (to_uint_id (width tft - r)), (to_uint_id (height tft - r))
    by (unfold Int.is_uint; lia).
  pose proof (random_fst r (width tft - r) g2 ltac:(lia)) as Hx.
  pose proof (random_snd r (width tft - r) g2 ltac:(lia)) as G3.
  destruct (random r (width tft - r) g2) as [px g3]. cbn [fst snd] in Hx, G3.
  pose proof (random_fst r (height tft - r) g3 ltac:(lia)) as Hy.
  pose proof (random_snd r (height tft - r) g3 ltac:(lia)) as G4.
  destruct (random r (height tft - r) g3) as [py g4]. cbn [fst snd] in Hy, G4.
  pose proof (random_fst 20 45 g4 ltac:(lia)) as Hkx.
  pose proof (random_snd 20 45 g4 ltac:(lia)) as G5.
  destruct (random 20 45 g4) as [kx g5]. cbn [fst snd] in Hkx, G5.
  pose proof (random_fst 20 45 g5 ltac:(lia)) as Hky.
  pose proof (random_snd 20 45 g5 ltac:(lia)) as G6.
  destruct (random 20 45 g5) as [ky g6]. cbn [fst snd] in Hky, G6.
  cbn [fst snd x y dx dy radius color].
  pose proof (tenths_range kx ltac:(lia)). pose proof (tenths_range ky ltac:(lia)).
  repeat split; try lia; eauto.
  intros i. unfold skip in *. rewrite G6, G5, G4, G3, G2, G1. reflexivity.
Qed.

Lemma X1_constructor_ranges_witness :
  let b := fst (Ball.Ball landscape stale falling_draws) in
  6 <= radius b < 12 /\ 0 <= color b < 65535 /\
  (exists px, radius b <= px < width landscape - radius b /\ x b = F32.of_int px) /\
  (exists py, radius b <= py < height landscape - radius b /\ y b = F32.of_int py) /\
  (exists k, 20 <= k < 45 /\ dx b = tenths k) /\
  (exists k, 20 <= k < 45 /\ dy b = tenths k) /\
  2 * F32.one <= dx b <= 5 * F32.one /\ 2 * F32.one <= dy b <= 5 * F32.one /\
  forall i, snd (Ball.Ball landscape stale falling_draws) i = skip 6 falling_draws i.
Proof.
  apply X1_constructor_ranges; cbn [width height landscape]; lia.
Defined.

(** X2.  [Ball::erase] issues no [fillRect] at all exactly when the cell did
    not change, for any [int] cells: the 16-bit wrap-around of [ix - ox]
    and [iy - oy] cannot turn a real movement into zero. *)
Theorem X2_erase_nothing_iff_cell_kept b :
  typed b -> (erase b = [] <-> ix b = ox b /\ iy b = oy b).
Proof.
  intros (Hix & Hiy & Hox & Hoy).
  unfold erase, erase_horizontal, erase_vertical, mx, my.
  set (m_x := Int.to_int (ix b - ox b)).
  set (m_y := Int.to_int (iy b - oy b)).
  assert (Hmx : m_x = 0 <-> ix b = ox b) by (unfold m_x; unwrap; lia).
  assert (Hmy : m_y = 0 <-> iy b = oy b) by (unfold m_y; unwrap; lia).
  clearbody m_x m_y.
  destruct (Z.gtb_spec m_x 0); [|destruct (Z.ltb_spec m_x 0)];
  (destruct (Z.gtb_spec m_y 0); [|destruct (Z.ltb_spec m_y 0)]);
  cbn [app]; split; try discriminate; try (intros; lia); try reflexivity.
Qed.

Lemma X2_erase_nothing_iff_cell_kept_witness :
  erase scenario_start = [] <->
  ix scenario_start = ox scenario_start /\ iy scenario_start = oy scenario_start.
Proof.
  apply X2_erase_nothing_iff_cell_kept.
  unfold typed, Int.is_int. cbn [ix iy ox oy scenario_start]. lia.
Defined.

(** X3.  [Ball::erase] issues one [fillRect] for each axis on which the
    movement is not zero (none, one or two), every one of them in
    BACKGROUND; [Ball::draw] issues exactly one, in the ball's colour. *)
Theorem X3_erase_fills_counted b :
  length (erase b)
  = (b2n (negb (mx b =? 0)%Z) + b2n (negb (my b =? 0)%Z))%nat /\
  (forall c, In c (erase b) -> fcolor c = BACKGROUND) /\
  (exists d, draw b = [d] /\ fcolor d = Int.to_uint (color b)).
Proof.
  unfold erase, erase_horizontal, erase_vertical, draw.
  set (m_x := mx b). set (m_y := my b).
  split; [|split].
  - destruct (Z.gtb_spec m_x 0); [|destruct (Z.ltb_spec m_x 0)];
    (destruct (Z.gtb_spec m_y 0); [|destruct (Z.ltb_spec m_y 0)]);
    destruct (Z.eqb_spec m_x 0); destruct (Z.eqb_spec m_y 0); try lia;
    reflexivity.
  - intros c Hin.
    destruct (Z.gtb_spec m_x 0); [|destruct (Z.ltb_spec m_x 0)];
    (destruct (Z.gtb_spec m_y 0); [|destruct (Z.ltb_spec m_y 0)]);
    cbn [app In] in Hin;
    repeat match goal with
           | H : _ \/ _ |- _ => destruct H
           | H : False |- _ => destruct H
           end; subst c; reflexivity.
  - eexists. split; reflexivity.
Qed.

Lemma X3_erase_fills_counted_witness :
  length (erase sideways)
  = (b2n (negb (mx sideways =? 0)%Z) + b2n (negb (my sideways =? 0)%Z))%nat /\
  (forall c, In c (erase sideways) -> fcolor c = BACKGROUND) /\
  (exists d, draw sideways = [d] /\ fcolor d = Int.to_uint (color sideways)).
Proof. apply (X3_erase_fills_counted sideways). Defined.

(** X4.  When the cell moved by at most the box side on each axis (also by
    nothing on one axis or on both) and no [int] expression overflows, the
    pixels [Ball::erase] fills are exactly those of the old box outside
    the new box, [Ball::draw] fills exactly the new box, and together they
    fill exactly the union of the two boxes. *)
Theorem X4_erase_is_old_minus_new b :
  sized b -> no_overflow b ->
  Z.abs (ix b - ox b) <= 2 * radius b ->
  Z.abs (iy b - oy b) <= 2 * radius b ->
  forall px py,
    (painted (erase b) px py <-> old_box b px py /\ ~ new_box b px py) /\
    (painted (draw b) px py <-> new_box b px py) /\
    (painted (erase b ++ draw b) px py <-> old_box b px py \/ new_box b px py).
Proof.
  intros Hs Hn Hmx Hmy px py.
  unfold erase.
  rewrite erase_horizontal_exact, erase_vertical_exact, draw_exact by assumption.
  unfold sized in Hs. unfold old_box, new_box, box.
  destruct (Z.gtb_spec (ix b - ox b) 0);
    [|destruct (Z.ltb_spec (ix b - ox b) 0)];
  (destruct (Z.gtb_spec (iy b - oy b) 0);
    [|destruct (Z.ltb_spec (iy b - oy b) 0)]);
  cbn [app]; rewrite ?painted_cons, ?painted_nil;
  unfold covers; cbn [fx fy fw fh]; lia.
Qed.

Lemma X4_erase_is_old_minus_new_witness :
  (painted (erase sideways) 107 50 <->
     old_box sideways 107 50 /\ ~ new_box sideways 107 50) /\
  (painted (draw sideways) 107 50 <-> new_box sideways 107 50) /\
  (painted (erase sideways ++ draw sideways) 107 50 <->
     old_box sideways 107 50 \/ new_box sideways 107 50).
Proof.
  apply X4_erase_is_old_minus_new;
    unfold sized, no_overflow, Int.is_int;
    cbn [ix iy ox oy radius sideways]; lia.
Defined.

(** X5.  A step of [Ball::move] that does not reach the ground, at a
    vertical speed of at most 15 pixels per step either way: the new [dy]
    is the old one plus 0.05 up to a float rounding error below 2^-19, so
    it is strictly larger, and [y] advances by the new [dy]. *)
Theorem X5_air_step_adds_gravity tft b g :
  hits_ground tft b = false -> Z.abs (dy b) <= 15 * F32.one ->
  let b' := fst (move tft b g) in
  dy b + gravity - 2 ^ 130 < dy b' <= dy b + gravity + 2 ^ 130 /\
  dy b < dy b' /\
  y b' = F32.add (y b) (dy b').
Proof.
  intros Hg Hv b'. unfold b'. rewrite move_dy, move_y. unfold new_dy. rewrite Hg.
  destruct gravity_small as [Hc0 Hc1].
  assert (E : 2 ^ 130 * 524288 = F32.one) by reflexivity.
  assert (E2 : 2 ^ 146 = 2 ^ 130 * 65536) by reflexivity.
  pose proof gravity_eq as Hc.
  assert (E3 : 2 ^ 130 = 512 * 2 ^ 121) by reflexivity.
  pose proof (round_near_speed (dy b + gravity) ltac:(lia)) as Hr.
  fold (F32.add (dy b) gravity) in Hr.
  repeat split; lia.
Qed.

Lemma X5_air_step_adds_gravity_witness :
  let b' := fst (move upright scenario_start falling_draws) in
  dy scenario_start + gravity - 2 ^ 130 < dy b'
    <= dy scenario_start + gravity + 2 ^ 130 /\
  dy scenario_start < dy b' /\
  y b' = F32.add (y scenario_start) (dy b').
Proof.
  apply X5_air_step_adds_gravity.
  - vm_compute. reflexivity.
  - by_evaluation.
Defined.

(** X6.  A step of [Ball::move] that reaches the ground, with [y] within
    2000 pixels of the origin: the new [dy] is [k / 10.0] for a
    k in [-45, -20), which lies between -4.5 and -2 whatever the speed of
    impact was, and the ball moves up by more than 1 and less than 5
    pixels in that same step. *)
Theorem X6_ground_bounce_goes_up tft b g :
  hits_ground tft b = true -> Z.abs (y b) <= 2000 * F32.one ->
  let b' := fst (move tft b g) in
  (exists k, -45 <= k < -20 /\ dy b' = tenths k) /\
  - 9 * 2 ^ 148 <= dy b' <= - 2 * F32.one /\
  y b - 5 * F32.one < y b' < y b - F32.one.
Proof.
  intros Hg Hy b'. unfold b'. rewrite move_dy, move_y. unfold new_dy. rewrite Hg.
  set (k := fst (random (-45) (-20) (rng_after_wall tft b g))).
  assert (Hk : -45 <= k < -20) by (apply random_fst; lia).
  pose proof (ground_speed k Hk) as Hv.
  pose proof one_eq as Ho.
  assert (E1 : 2 ^ 148 * 2 = 2 ^ 149) by reflexivity.
  assert (E2 : 2 ^ 137 * 4096 = 2 ^ 149) by reflexivity.
  pose proof (round_near_position (y b + tenths k) ltac:(lia)) as Hr.
  fold (F32.add (y b) (tenths k)) in Hr.
  split; [exists k; split; [exact Hk|reflexivity]|].
  split; lia.
Qed.

Lemma X6_ground_bounce_goes_up_witness :
  let b' := fst (move landscape at_ground falling_draws) in
  (exists k, -45 <= k < -20 /\ dy b' = tenths k) /\
  - 9 * 2 ^ 148 <= dy b' <= - 2 * F32.one /\
  y at_ground - 5 * F32.one < y b' < y at_ground - F32.one.
Proof.
  apply X6_ground_bounce_goes_up.
  - vm_compute. reflexivity.
  - by_evaluation.
Defined.

(** X7.  An executed [loop] takes from the generator exactly one number
    for each ball that reaches a wall and one for each ball that reaches
    the ground in that tick, and none otherwise. *)
Theorem X7_tick_draws_once_per_bounce ms w :
  5 < Int.to_ulong (ms - lastms w) ->
  forall i, rng (loop ms w) i = skip (bounces (tft w) (balls w)) (rng w) i.
Proof.
  intros H i. unfold loop.
  destruct (Z.leb_spec (Int.to_ulong (ms - lastms w)) 5); [lia|].
  pose proof (move_all_snd (tft w) (balls w) 0%nat (rng w) i) as Hm.
  destruct (move_all (tft w) 0 (balls w) (rng w)) as [[bs ev] g].
  exact Hm.
Qed.

Lemma X7_tick_draws_once_per_bounce_witness :
  rng (loop 6 started) 0%nat
  = skip (bounces (tft started) (balls started)) (rng started) 0%nat.
Proof.
  apply (X7_tick_draws_once_per_bounce 6 started). vm_compute. reflexivity.
Defined.

(** X8.  The gate of [loop] measures elapsed time modulo 2^32: when
    [millis()] returns the last tick's time plus e (wrapped to an
    [unsigned long]) with e below 2^32, the call does nothing for e <= 5
    and runs the tick for e > 5, also when [millis()] wrapped round to a
    value smaller than [lastms]; an executed tick stores the new time and
    calls [move], [erase] and [draw] once per ball. *)
Theorem X8_gate_measures_elapsed_time ms w e :
  0 <= lastms w < 4294967296 -> 0 <= e < 4294967296 ->
  ms = Int.to_ulong (lastms w + e) ->
  (e <= 5 -> loop ms w = w) /\
  (5 < e -> lastms (loop ms w) = ms /\
            length (calls (trace (loop ms w)))
            = (length (calls (trace w)) + 3 * length (balls w))%nat).
Proof.
  intros Hl He ->.
  assert (Hd : Int.to_ulong (Int.to_ulong (lastms w + e) - lastms w) = e).
  { unfold Int.to_ulong. Z.div_mod_to_equations. lia. }
  split; intros H.
  - apply loop_gated. lia.
  - pose proof (loop_executed (Int.to_ulong (lastms w + e)) w ltac:(lia)) as Hx.
    cbv zeta in Hx. destruct Hx as (_ & Hms & _ & _ & Hc).
    split; [exact Hms|].
    rewrite Hc. rewrite !length_app, !length_map, !length_seq. lia.
Qed.

Lemma X8_gate_measures_elapsed_time_witness :
  (10 <= 5 -> loop 4 near_wrap = near_wrap) /\
  (5 < 10 -> lastms (loop 4 near_wrap) = 4 /\
             length (calls (trace (loop 4 near_wrap)))
             = (length (calls (trace near_wrap)) + 3 * length (balls near_wrap))%nat).
Proof.
  apply (X8_gate_measures_elapsed_time 4 near_wrap 10).
  - cbn [lastms near_wrap]. lia.
  - lia.
  - vm_compute. reflexivity.
Defined.

(** X9.  An executed [loop] appends to what the display received at
    least one and at most three [fillRect] calls per ball, and leaves the
    earlier calls as they were. *)
Theorem X9_fills_per_tick ms w :
  5 < Int.to_ulong (ms - lastms w) ->
  exists new,
    fills (trace (loop ms w)) = fills (trace w) ++ new /\
    (length (balls w) <= length new <= 3 * length (balls w))%nat.
Proof.
  intros H. pose proof (loop_executed ms w H) as Hx. cbv zeta in Hx.
  destruct Hx as (_ & _ & Hm & Hf & _).
  exists (flat_map erase (balls (loop ms w)) ++ flat_map draw (balls (loop ms w))).
  split; [exact Hf|].
  rewrite length_app.
  pose proof (Forall2_length Hm) as Hl.
  pose proof (length_flat_map_bounds erase 0 2 (balls (loop ms w))
                (fun a _ => conj (Nat.le_0_l _) (erase_length a))) as He.
  pose proof (length_flat_map_bounds draw 1 1 (balls (loop ms w))
                (fun a _ => conj (le_n 1) (le_n 1))) as Hd.
  lia.
Qed.

Lemma X9_fills_per_tick_witness :
  exists new,
    fills (trace (loop 6 started)) = fills (trace started) ++ new /\
    (length (balls started) <= length new <= 3 * length (balls started))%nat.
Proof.
  apply X9_fills_per_tick. vm_compute. reflexivity.
Defined.

(** X10.  An executed [loop] changes no ball's radius or colour, keeps
    the balls in their order, stores each ball's previous cell in (ox, oy)
    and leaves a new cell that is an [int]. *)
Theorem X10_tick_keeps_size_and_colour ms w :
  5 < Int.to_ulong (ms - lastms w) ->
  Forall2 (fun b b' => radius b' = radius b /\ color b' = color b /\
                       ox b' = ix b /\ oy b' = iy b /\
                       Int.is_int (ix b') /\ Int.is_int (iy b'))
          (balls w) (balls (loop ms w)).
Proof.
  intros H. pose proof (loop_executed ms w H) as Hx. cbv zeta in Hx.
  destruct Hx as (_ & _ & Hm & _).
  induction Hm as [|b b' bs bs' [g ->] _ IH]; constructor; [|exact IH].
  rewrite move_radius, move_color.
  pose proof (move_cells (tft w) b g) as Hc. cbv zeta in Hc.
  destruct Hc as (Hi & Hj & Ho & Hp).
  split; [reflexivity|]. split; [reflexivity|].
  split; [exact Ho|]. split; [exact Hp|].
  split; [rewrite Hi|rewrite Hj]; apply to_int_range.
Qed.

Lemma X10_tick_keeps_size_and_colour_witness :
  Forall2 (fun b b' => radius b' = radius b /\ color b' = color b /\
                       ox b' = ix b /\ oy b' = iy b /\
                       Int.is_int (ix b') /\ Int.is_int (iy b'))
          (balls started) (balls (loop 6 started)).
Proof.
  apply X10_tick_keeps_size_and_colour. vm_compute. reflexivity.
Defined.

(** X11.  [setup] on a panel between 33 and 480 pixels each way: it
    leaves BALLCOUNT = 5 balls, each in play (radius in [6, 12), dx a
    bounce speed, x between the walls, y less than a pixel past the ground
    bound with bounded energy), nothing drawn, [lastms] the current time,
    thirty numbers taken from the generator, and in every ball the cells
    ix, iy, ox, oy of the storage it was allocated in. *)
Theorem X11_setup_creates_the_balls d mem ms g :
  panel_ok d ->
  let w := setup d mem ms g in
  tft w = d /\ lastms w = ms /\ trace w = [] /\
  length (balls w) = BALLCOUNT /\
  Forall (in_play d) (balls w) /\
  Forall2 same_cells (map mem (seq 0 BALLCOUNT)) (balls w) /\
  forall i, rng w i = skip 30 g i.
Proof.
  intros Hp. pose proof (setup_spec d mem ms g) as H. cbv zeta in H.
  destruct H as (Ht & Hl & Htr & Hn & Hb).
  cbv zeta. repeat (split; [auto; fail|]).
  destruct Hp as [HW HH].
  pose proof (create_balls_snd d (map mem (seq 0 BALLCOUNT)) g
                ltac:(lia) ltac:(lia)) as Hc.
  unfold setup.
  destruct (create_balls d (map mem (seq 0 BALLCOUNT)) g) as [bs g'].
  cbn [fst snd balls rng] in *. exact Hc.
Qed.

Lemma X11_setup_creates_the_balls_witness :
  let w := setup landscape (fun _ => stale) 0 falling_draws in
  tft w = landscape /\ lastms w = 0 /\ trace w = [] /\
  length (balls w) = BALLCOUNT /\
  Forall (in_play landscape) (balls w) /\
  Forall2 same_cells (map (fun _ => stale) (seq 0 BALLCOUNT)) (balls w) /\
  forall i, rng w i = skip 30 falling_draws i.
Proof.
  apply X11_setup_creates_the_balls.
  unfold panel_ok. cbn [width height landscape]. lia.
Defined.

(** X12.  One [Ball::move] of a ball in play, on a panel between 33 and
    480 pixels each way, gives a ball in play whose cell is the truncated
    position without any 16-bit wrap-around, with
    radius <= ix <= width - radius and -250 <= iy <= height - radius; y
    stays below the ground bound plus one pixel and above -250, and the
    vertical speed below 9 pixels per step. *)
Theorem X12_step_stays_in_play tft b g :
  panel_ok tft -> in_play tft b ->
  let b' := fst (move tft b g) in
  in_play tft b' /\
  ix b' = F32.trunc (x b') /\ iy b' = F32.trunc (y b') /\
  radius b' <= ix b' <= width tft - radius b' /\
  -250 <= iy b' <= height tft - radius b' /\
  - 250 * F32.one <= y b' < (height tft - radius b' + 1) * F32.one /\
  Z.abs (dy b') < 9 * F32.one.
Proof.
  intros Hp Hi b'.
  destruct (in_play_kept tft b g Hp Hi) as [Hi' Hpl]. fold b' in Hi', Hpl.
  pose proof (placed_cells tft b' Hp Hi' Hpl) as Hc.
  pose proof Hi' as (Hs & _ & _ & Hf).
  pose proof (in_flight_bounds tft b' Hs (proj2 Hp) Hf) as Hb.
  destruct Hpl as [Hx Hy].
  tauto.
Qed.

Lemma X12_step_stays_in_play_witness :
  let b' := fst (move landscape falling_ball falling_draws) in
  in_play landscape b' /\
  ix b' = F32.trunc (x b') /\ iy b' = F32.trunc (y b') /\
  radius b' <= ix b' <= width landscape - radius b' /\
  -250 <= iy b' <= height landscape - radius b' /\
  - 250 * F32.one <= y b' < (height landscape - radius b' + 1) * F32.one /\
  Z.abs (dy b') < 9 * F32.one.
Proof.
  apply X12_step_stays_in_play.
  - unfold panel_ok. cbn [width height landscape]. lia.
  - apply Ball_in_play. unfold panel_ok. cbn [width height landscape]. lia.
Defined.

(** X13.  In every run of [loop] calls after [setup], whatever times
    [millis()] returns and whatever the generator yields: there are
    BALLCOUNT balls, all in play, and once anything was painted every
    cell is the truncated position, with radius <= ix <= width - radius
    and -250 <= iy <= height - radius. *)
Theorem X13_run_keeps_balls_in_play d mem ms g times :
  panel_ok d ->
  let w := run times (setup d mem ms g) in
  tft w = d /\ length (balls w) = BALLCOUNT /\
  Forall (in_play d) (balls w) /\
  (fills (trace w) <> [] ->
   Forall (fun b => placed b /\
                    radius b <= ix b <= width d - radius b /\
                    -250 <= iy b <= height d - radius b) (balls w)).
Proof.
  intros Hp w.
  pose proof (run_sound d times _ Hp (setup_sound d mem ms g Hp)) as Hs.
  fold w in Hs. destruct Hs as (Ht & Hi & Hsh).
  split; [exact Ht|]. split.
  { unfold w. rewrite run_length. apply setup_spec. }
  split; [exact Hi|].
  intros Hne. destruct Hsh as [He|[Hpl _]]; [contradiction|].
  rewrite Forall_forall in *. intros b Hin.
  split; [auto|]. apply placed_cells; auto.
Qed.

Lemma X13_run_keeps_balls_in_play_witness :
  let w := run [6; 12] (setup landscape (fun _ => stale) 0 falling_draws) in
  tft w = landscape /\ length (balls w) = BALLCOUNT /\
  Forall (in_play landscape) (balls w) /\
  (fills (trace w) <> [] ->
   Forall (fun b => placed b /\
                    radius b <= ix b <= width landscape - radius b /\
                    -250 <= iy b <= height landscape - radius b) (balls w)).
Proof.
  apply X13_run_keeps_balls_in_play.
  unfold panel_ok. cbn [width height landscape]. lia.
Defined.

(** X14.  For a ball in play whose cell is its truncated position, one
    [Ball::move] changes the cell by at most 6 columns and 10 rows, less
    than the box side; so the following [erase] fills exactly the pixels
    of the box drawn before that the new box does not cover, and [draw]
    fills exactly the new box. *)
Theorem X14_steady_step_repaints_exactly tft b g :
  panel_ok tft -> in_play tft b -> placed b ->
  let b' := fst (move tft b g) in
  Z.abs (ix b' - ox b') <= 6 /\ Z.abs (iy b' - oy b') <= 10 /\
  forall px py,
    (old_box b' px py <-> new_box b px py) /\
    (painted (erase b') px py <-> new_box b px py /\ ~ new_box b' px py) /\
    (painted (draw b') px py <-> new_box b' px py).
Proof.
  intros Hp Hi Hpl b'.
  pose proof (step_short tft b g Hp Hi Hpl) as Hs. cbv zeta in Hs. fold b' in Hs.
  destruct Hs as (Hx & Hy & Hn).
  assert (Hz : sized b') by (apply move_sized, Hi).
  split; [exact Hx|]. split; [exact Hy|]. intros px py.
  assert (Ho : old_box b' px py <-> new_box b px py).
  { unfold old_box, new_box, b'.
    pose proof (move_cells tft b g) as Hc. cbv zeta in Hc.
    destruct Hc as (_ & _ & -> & ->). rewrite move_radius. tauto. }
  split; [exact Ho|]. split.
  - rewrite <- Ho. apply erase_paints_vacated; try assumption;
      unfold sized in Hz; lia.
  - apply draw_paints_new_box; try assumption; apply Hn.
Qed.

Lemma X14_steady_step_repaints_exactly_witness :
  let b' := fst (move upright scenario_start falling_draws) in
  Z.abs (ix b' - ox b') <= 6 /\ Z.abs (iy b' - oy b') <= 10 /\
  forall px py,
    (old_box b' px py <-> new_box scenario_start px py) /\
    (painted (erase b') px py <->
       new_box scenario_start px py /\ ~ new_box b' px py) /\
    (painted (draw b') px py <-> new_box b' px py).
Proof.
  apply X14_steady_step_repaints_exactly.
  - unfold panel_ok. cbn [width height upright]. lia.
  - unfold in_play. split; [|split; [|split]].
    + unfold sized. cbn [radius scenario_start]. lia.
    + exists 30. split; [lia|]. left. vm_compute. reflexivity.
    + unfold within_walls. by_evaluation.
    + unfold in_flight, energy. by_evaluation.
  - unfold placed. by_evaluation.
Defined.

(** X15.  The incremental repainting is a full repainting: in every run
    of [loop] calls after [setup], also on storage whose cells were never
    initialised, either nothing was painted yet or every pixel has the
    colour that clearing the screen and drawing all balls in array order
    would give. *)
Theorem X15_screen_is_full_redraw d mem ms g times :
  panel_ok d ->
  let w := run times (setup d mem ms g) in
  fills (trace w) = [] \/
  forall px py, screen_after d (trace w) px py = full_redraw d (balls w) px py.
Proof.
  intros Hp w.
  pose proof (run_sound d times _ Hp (setup_sound d mem ms g Hp)) as Hs.
  fold w in Hs. destruct Hs as (Ht & _ & [He|[_ Hsc]]); [left; exact He|].
  right. rewrite Ht in Hsc. exact Hsc.
Qed.

Lemma X15_screen_is_full_redraw_witness :
  let w := run [6; 12] (setup landscape (fun _ => stale) 0 falling_draws) in
  fills (trace w) = [] \/
  forall px py,
    screen_after landscape (trace w) px py = full_redraw landscape (balls w) px py.
Proof.
  apply X15_screen_is_full_redraw.
  unfold panel_ok. cbn [width height landscape]. lia.
Defined.

(** X16.  What the screen shows in a run once something was painted: a
    pixel in no ball's box is BACKGROUND, and a pixel of the panel in the
    box of a ball and in the box of no later ball of the array has that
    ball's colour. *)
Theorem X16_what_each_pixel_shows d mem ms g times :
  panel_ok d ->
  let w := run times (setup d mem ms g) in
  fills (trace w) <> [] ->
  forall px py,
    ((forall b, In b (balls w) -> ~ new_box b px py) ->
     screen_after d (trace w) px py = BACKGROUND) /\
    (forall behind b front,
       balls w = behind ++ b :: front ->
       on_panel d px py = true -> new_box b px py ->
       (forall c, In c front -> ~ new_box c px py) ->
       screen_after d (trace w) px py = Int.to_uint (color b)).
Proof.
  intros Hp w Hne px py.
  pose proof (run_sound d times _ Hp (setup_sound d mem ms g Hp)) as Hs.
  fold w in Hs. destruct Hs as (Ht & Hi & [He|[Hpl Hsc]]); [contradiction|].
  rewrite Ht in Hsc. rewrite Hsc.
  assert (Hd : forall b, In b (balls w) ->
                 (painted (draw b) px py <-> new_box b px py)).
  { intros b Hin. rewrite Forall_forall in Hi, Hpl.
    destruct (in_box_is_int d b Hp (Hi b Hin) (Hpl b Hin)).
    apply draw_paints_new_box; try assumption. apply (Hi b Hin). }
  split.
  - intros Hout. apply full_redraw_background.
    intros b Hin Hb. apply (Hout b Hin). now apply Hd.
  - intros behind b front Eb Hon Hb Hf. rewrite Eb.
    assert (Hinb : In b (balls w)) by (rewrite Eb; apply in_elt).
    apply full_redraw_front; [exact Hon|now apply Hd|].
    intros c Hin Hc. apply (Hf c Hin). apply Hd; [|exact Hc].
    rewrite Eb. apply in_or_app. right. now right.
Qed.

Lemma X16_what_each_pixel_shows_witness :
  let w := run [6] (setup landscape (fun _ => stale) 0 falling_draws) in
  ((forall b, In b (balls w) -> ~ new_box b 108 166) ->
   screen_after landscape (trace w) 108 166 = BACKGROUND) /\
  (forall behind b front,
     balls w = behind ++ b :: front ->
     on_panel landscape 108 166 = true -> new_box b 108 166 ->
     (forall c, In c front -> ~ new_box c 108 166) ->
     screen_after landscape (trace w) 108 166 = Int.to_uint (color b)).
Proof.
  apply (X16_what_each_pixel_shows landscape (fun _ => stale) 0 falling_draws [6]).
  - unfold panel_ok. cbn [width height landscape]. lia.
  - intros H. vm_compute in H. discriminate H.
Defined.

(** X17.  The driver identification of [setup]: the identifier passed
    to [tft.begin] is always one of the six chips the [if] chain names; a
    named chip is passed as read, every other value (0x0101 included)
    becomes 0x9341; something is printed in every case; and the display
    calls are reset, readID, begin, fillScreen(BACKGROUND),
    setRotation(3), in this order. *)
Theorem X17_driver_fallback id :
  let said := fst (Bringup.identify id) in
  let identifier := snd (Bringup.identify id) in
  In identifier Bringup.known_drivers /\
  (In id Bringup.known_drivers -> identifier = id) /\
  (~ In id Bringup.known_drivers -> identifier = 0x9341) /\
  said <> [] /\
  Bringup.bring_up id
  = [Bringup.Reset; Bringup.ReadID] ++ fst (Bringup.identify (Int.to_uint id))
    ++ [Bringup.Begin (snd (Bringup.identify (Int.to_uint id)));
        Bringup.FillScreen BACKGROUND; Bringup.SetRotation 3].
Proof.
  cbv zeta. unfold Bringup.bring_up.
  split; [|split; [|split; [|split]]].
  - unfold Bringup.identify, Bringup.known_drivers.
    repeat match goal with
           | |- context [?a =? ?c] => destruct (Z.eqb_spec a c)
           end; cbn [snd In]; subst; auto 10.
  - unfold Bringup.identify, Bringup.known_drivers.
    repeat match goal with
           | |- context [?a =? ?c] => destruct (Z.eqb_spec a c)
           end; cbn [snd In]; intros; lia.
  - unfold Bringup.identify, Bringup.known_drivers.
    repeat match goal with
           | |- context [?a =? ?c] => destruct (Z.eqb_spec a c)
           end; cbn [snd In]; intros H; try reflexivity; exfalso; apply H; subst; auto 10.
  - unfold Bringup.identify.
    repeat match goal with
           | |- context [?a =? ?c] => destruct (Z.eqb_spec a c)
           end; cbn [fst]; discriminate.
  - destruct (Bringup.identify (Int.to_uint id)). reflexivity.
Qed.

Lemma X17_driver_fallback_witness :
  let said := fst (Bringup.identify 0x0101) in
  let identifier := snd (Bringup.identify 0x0101) in
  In identifier Bringup.known_drivers /\
  (In 0x0101 Bringup.known_drivers -> identifier = 0x0101) /\
  (~ In 0x0101 Bringup.known_drivers -> identifier = 0x9341) /\
  said <> [] /\
  Bringup.bring_up 0x0101
  = [Bringup.Reset; Bringup.ReadID] ++ fst (Bringup.identify (Int.to_uint 0x0101))
    ++ [Bringup.Begin (snd (Bringup.identify (Int.to_uint 0x0101)));
        Bringup.FillScreen BACKGROUND; Bringup.SetRotation 3].
Proof. apply (X17_driver_fallback 0x0101). Defined.
